(** * Natal chart backend: the request pipeline of [main.py]

    A shallow embedding of the FastAPI handler [calculate_natal_chart] and of
    its three helpers, [_parse_local_datetime], [_julday_utc] and
    [_sign_from_longitude], together with the part of the Python runtime they
    rest on ([str.split], [int], sequence unpacking, [datetime], [timedelta],
    [timezone]).

    Modelling conventions.
    - A Python [float] is modelled by the rational number it denotes ([Q]).
      The float operations of the program whose rounding decides a result,
      the floor division of the sign mapper and the product inside
      [timedelta], round to binary64; the decimal hour and the numbers of
      the ephemeris are taken exactly.  Infinities and NaN are outside the
      model.
    - A Python [int] is a [Z].
    - A Python [str] is a [string] holding the bytes of its UTF-8 encoding;
      [int] reads its code points, with the decimal digits and the white
      space of Unicode.
    - A raised exception is a value of [exn]; code that may raise returns a
      [Result].
    - The Swiss Ephemeris module [swe] is an external library: it is a record
      of functions [SwissEph], a parameter of the handler. *)

From Stdlib Require Import ZArith QArith Qround Qabs Lia List String Ascii Bool.
Import ListNotations.

Local Open Scope Z_scope.

(** ** Exceptions and results *)

Inductive exn : Type :=
| ValueError
| OverflowError
| IndexError
| SweError.

Inductive Result (A : Type) : Type :=
| Ok (a : A)
| Raise (e : exn).

Arguments Ok {A} a.
Arguments Raise {A} e.

Definition bind {A B : Type} (r : Result A) (k : A -> Result B) : Result B :=
  match r with
  | Ok a => k a
  | Raise e => Raise e
  end.

Notation "x <- r ;; k" := (bind r (fun x => k))
  (at level 61, r at next level, right associativity).
Notation "' p <- r ;; k" := (bind r (fun p => k))
  (at level 61, p pattern, r at next level, right associativity).

(** ** Strings: [str.split] and [int] *)

(** [s.split(sep)] for a one-character separator: the pieces between the
    occurrences of [sep], always at least one piece. *)
Fixpoint str_split (sep : ascii) (s : string) : list string :=
  match s with
  | EmptyString => [EmptyString]
  | String c s' =>
      if Ascii.eqb c sep then EmptyString :: str_split sep s'
      else match str_split sep s' with
           | w :: ws => String c w :: ws
           | [] => [String c EmptyString]
           end
  end.

(** The code points of a [str] that is held as the bytes of its UTF-8
    encoding.  A byte that starts no well-formed sequence is read as the
    replacement character 65533. *)
Fixpoint utf8_decode (bs : list Z) : list Z :=
  match bs with
  | [] => []
  | b0 :: r0 =>
      if b0 <? 128 then b0 :: utf8_decode r0
      else if b0 <? 192 then 65533 :: utf8_decode r0
      else if b0 <? 224 then
        match r0 with
        | b1 :: r1 => (b0 - 192) * 64 + (b1 - 128) :: utf8_decode r1
        | [] => [65533]
        end
      else if b0 <? 240 then
        match r0 with
        | b1 :: b2 :: r2 =>
            (b0 - 224) * 4096 + (b1 - 128) * 64 + (b2 - 128)
            :: utf8_decode r2
        | _ => [65533]
        end
      else
        match r0 with
        | b1 :: b2 :: b3 :: r3 =>
            (b0 - 240) * 262144 + (b1 - 128) * 4096 + (b2 - 128) * 64
            + (b3 - 128) :: utf8_decode r3
        | _ => [65533]
        end
  end.

Definition code_points (s : string) : list Z :=
  utf8_decode (map (fun c => Z.of_nat (nat_of_ascii c))
                   (list_ascii_of_string s)).

(** The white space characters beyond ASCII ([str.isspace]). *)
Definition UNICODE_SPACES : list Z :=
  [133; 160; 5760; 8192; 8193; 8194; 8195; 8196; 8197; 8198; 8199; 8200;
   8201; 8202; 8232; 8233; 8239; 8287; 12288].

(** The decimal digits beyond ASCII come in runs of ten, zero to nine; these
    are the zeros of the runs (Unicode 14, as in Python 3.11). *)
Definition UNICODE_DIGIT_ZEROS : list Z :=
  [1632; 1776; 1984; 2406; 2534; 2662; 2790; 2918; 3046; 3174; 3302; 3430;
   3558; 3664; 3792; 3872; 4160; 4240; 6112; 6160; 6470; 6608; 6784; 6800;
   6992; 7088; 7232; 7248; 42528; 43216; 43264; 43472; 43504; 43600; 44016;
   65296; 66720; 68912; 69734; 69872; 69942; 70096; 70384; 70736; 70864;
   71248; 71360; 71472; 71904; 72016; 72784; 73040; 73120; 92768; 92864;
   93008; 120782; 120792; 120802; 120812; 120822; 123200; 123632; 125264;
   130032].

Definition unicode_decimal (cp : Z) : option Z :=
  match find (fun z => (z <=? cp) && (cp <? z + 10)) UNICODE_DIGIT_ZEROS with
  | Some z => Some (cp - z)
  | None => None
  end.

(** What [int] does to a character of a [str] before it parses: a character
    below 127 is kept, white space beyond becomes a space, a decimal digit
    its ASCII digit, anything else a question mark. *)
Definition to_ascii_decimal_and_space (cp : Z) : Z :=
  if cp <? 127 then cp
  else if existsb (Z.eqb cp) UNICODE_SPACES then 32
  else match unicode_decimal cp with
       | Some d => 48 + d
       | None => 63
       end.

(** ASCII white space as the parser skips it: space and the controls
    9..13. *)
Definition is_space (c : Z) : bool :=
  (c =? 32) || ((9 <=? c) && (c <=? 13)).

Definition digit_of (c : Z) : option Z :=
  if (48 <=? c) && (c <=? 57) then Some (c - 48) else None.

Fixpoint lstrip (cs : list Z) : list Z :=
  match cs with
  | c :: cs' => if is_space c then lstrip cs' else cs
  | [] => []
  end.

Definition strip (cs : list Z) : list Z :=
  rev (lstrip (rev (lstrip cs))).

(** Decimal digits, single underscores (95) allowed between two digits.
    [prev] tells whether the previous character was a digit. *)
Fixpoint int_digits (acc : Z) (prev : bool) (cs : list Z) : option Z :=
  match cs with
  | [] => if prev then Some acc else None
  | c :: cs' =>
      match digit_of c with
      | Some d => int_digits (10 * acc + d) true cs'
      | None =>
          if (c =? 95) && prev then int_digits acc false cs'
          else None
      end
  end.

(** The largest number of digits [int] converts
    ([sys.int_info.default_max_str_digits]). *)
Definition MAX_STR_DIGITS : Z := 4300.

Definition count_digits (cs : list Z) : Z :=
  Z.of_nat (List.length (filter (fun c => (48 <=? c) && (c <=? 57)) cs)).

(** [int(s)] in base 10: surrounding white space, an optional sign, digits.
    Anything else, and a literal of more than 4300 digits, raises
    [ValueError]. *)
Definition py_int (s : string) : Result Z :=
  let body := strip (map to_ascii_decimal_and_space (code_points s)) in
  let '(neg, ds) :=
    match body with
    | c :: rest =>
        if c =? 45 then (true, rest)
        else if c =? 43 then (false, rest)
        else (false, body)
    | [] => (false, body)
    end in
  match int_digits 0 false ds with
  | Some n =>
      if MAX_STR_DIGITS <? count_digits ds then Raise ValueError
      else Ok (if neg then - n else n)
  | None => Raise ValueError
  end.

(** ** Iteration and unpacking *)

Fixpoint map_result {A B : Type} (f : A -> Result B) (l : list A)
  : Result (list B) :=
  match l with
  | [] => Ok []
  | a :: l' => b <- f a ;; bs <- map_result f l' ;; Ok (b :: bs)
  end.

(** [x1, ..., xn = map(f, l)]: [map] is lazy, so [f] runs on the first [n]
    items in order; too few items raise [ValueError]; otherwise the iterator
    is advanced once more, which runs [f] on item [n+1] if there is one and
    then raises [ValueError] for too many values. *)
Definition unpack_map {A B : Type} (f : A -> Result B) (n : nat) (l : list A)
  : Result (list B) :=
  vs <- map_result f (firstn n l) ;;
  if (List.length l <? n)%nat then Raise ValueError
  else match skipn n l with
       | [] => Ok vs
       | extra :: _ => _ <- f extra ;; Raise ValueError
       end.

(** [x, *_ = t]: at least one item is needed. *)
Definition unpack_head {A : Type} (t : list A) : Result A :=
  match t with
  | x :: _ => Ok x
  | [] => Raise ValueError
  end.

(** Truth value of an [Optional[str]]: [None] and the empty string are
    false. *)
Definition truthy (s : option string) : bool :=
  match s with
  | None => false
  | Some EmptyString => false
  | Some (String _ _) => true
  end.

(** ** Floats

    A float is the rational number it denotes.  Where the program's own
    arithmetic on floats can round, the result is rounded as binary64 does,
    to the nearest double with ties to the even one. *)

(** To the nearest integer, ties to even. *)
Definition round_half_even (x : Q) : Z :=
  let f := Qfloor x in
  match Qcompare (x - inject_Z f) (1 # 2) with
  | Lt => f
  | Gt => f + 1
  | Eq => if Z.even f then f else f + 1
  end.

(** Two to the power [e], for any integer [e]. *)
Definition Qpow2 (e : Z) : Q :=
  if 0 <=? e then inject_Z (2 ^ e) else 1 # Z.to_pos (2 ^ (- e)).

(** The binary exponent of a positive number [a]: the [l] with
    [2^l <= a < 2^(l+1)]. *)
Definition Qlog2 (a : Q) : Z :=
  if Qle_bool 1 a then Z.log2 (Qfloor a)
  else - Z.log2_up (Qceiling (/ a)).

(** The double nearest to [q]: 53 significant bits, exponent not below
    -1074.  Overflow to infinity is outside the model. *)
Definition float64 (q : Q) : Q :=
  if Qnum q =? 0 then 0%Q
  else
    let a := Qabs q in
    let e := Z.max (Qlog2 a - 52) (-1074) in
    let m := round_half_even (a / Qpow2 e) in
    let r := (inject_Z m * Qpow2 e)%Q in
    if Qnum q <? 0 then (- r)%Q else r.

(** Towards zero: the integral part that [modf] and [int] take. *)
Definition Qtrunc (q : Q) : Z :=
  if Qle_bool 0 q then Qfloor q else Qceiling q.

Definition Qlt_bool (x y : Q) : bool := negb (Qle_bool y x).

(** C's [fmod]: exact, with the sign of [x]. *)
Definition fmod (x y : Q) : Q := (x - inject_Z (Qtrunc (x / y)) * y)%Q.

(** [vx // wx] on floats, for a divisor that is not zero: the remainder is
    taken exactly, the quotient [(vx - mod) / wx] is computed in floating
    point, lowered by one when the remainder has the other sign than the
    divisor, and snapped to the nearest integer. *)
Definition float_floordiv (vx wx : Q) : Q :=
  let rest := fmod vx wx in
  let div := float64 (float64 (vx - rest) / wx) in
  let div :=
    if negb (Qeq_bool rest 0)
       && negb (Bool.eqb (Qlt_bool wx 0) (Qlt_bool rest 0))
    then float64 (div - 1)
    else div in
  if negb (Qeq_bool div 0) then
    let floordiv := inject_Z (Qfloor div) in
    if Qlt_bool (1 # 2) (div - floordiv) then float64 (floordiv + 1)
    else floordiv
  else 0%Q.

(** [x + y] on floats. *)
Definition float_add (x y : Q) : Q := float64 (x + y).

(** ** The [datetime] module *)

Definition MINYEAR : Z := 1.
Definition MAXYEAR : Z := 9999.
Definition _MAXORDINAL : Z := 3652059.

Definition _DAYS_IN_MONTH : list Z :=
  [-1; 31; 28; 31; 30; 31; 30; 31; 31; 30; 31; 30; 31].

Definition _DAYS_BEFORE_MONTH : list Z :=
  [-1; 0; 31; 59; 90; 120; 151; 181; 212; 243; 273; 304; 334].

Definition table (t : list Z) (i : Z) : Z := nth (Z.to_nat i) t 0.

Definition _is_leap (year : Z) : bool :=
  (year mod 4 =? 0) && (negb (year mod 100 =? 0) || (year mod 400 =? 0)).

Definition _days_before_year (year : Z) : Z :=
  let y := year - 1 in
  y * 365 + y / 4 - y / 100 + y / 400.

Definition _days_in_month (year month : Z) : Z :=
  if (month =? 2) && _is_leap year then 29
  else table _DAYS_IN_MONTH month.

Definition _days_before_month (year month : Z) : Z :=
  table _DAYS_BEFORE_MONTH month
  + (if (2 <? month) && _is_leap year then 1 else 0).

Definition _ymd2ord (year month day : Z) : Z :=
  _days_before_year year + _days_before_month year month + day.

Definition _DI400Y : Z := 146097.
Definition _DI100Y : Z := 36524.
Definition _DI4Y : Z := 1461.

Definition _ord2ymd (ordinal : Z) : Z * Z * Z :=
  let n := ordinal - 1 in
  let n400 := n / _DI400Y in
  let n := n mod _DI400Y in
  let year := n400 * 400 + 1 in
  let n100 := n / _DI100Y in
  let n := n mod _DI100Y in
  let n4 := n / _DI4Y in
  let n := n mod _DI4Y in
  let n1 := n / 365 in
  let n := n mod 365 in
  let year := year + n100 * 100 + n4 * 4 + n1 in
  if (n1 =? 4) || (n100 =? 4) then (year - 1, 12, 31)
  else
    let leapyear := (n1 =? 3) && (negb (n4 =? 24) || (n100 =? 3)) in
    let month := Z.shiftr (n + 50) 5 in
    let preceding :=
      table _DAYS_BEFORE_MONTH month
      + (if (2 <? month) && leapyear then 1 else 0) in
    if n <? preceding then
      let month := month - 1 in
      let preceding :=
        preceding
        - (table _DAYS_IN_MONTH month
           + (if (month =? 2) && leapyear then 1 else 0)) in
      (year, month, n - preceding + 1)
    else (year, month, n - preceding + 1).

(** An aware [datetime] whose [tzinfo] is a fixed-offset [timezone]; the
    offset, like every [timedelta] here, is held as a whole number of
    microseconds. *)
Record datetime : Type := mk_datetime {
  year : Z;
  month : Z;
  day : Z;
  hour : Z;
  minute : Z;
  second : Z;
  microsecond : Z;
  utcoffset : Z
}.

Definition US_PER_SECOND : Z := 1000000.
Definition US_PER_HOUR : Z := 3600 * US_PER_SECOND.
Definition US_PER_DAY : Z := 24 * US_PER_HOUR.

(** [timedelta(hours=h)] for a float [h]: the whole hours are converted
    exactly; the fraction of an hour is multiplied by 3600000000 in floating
    point; the sum is rounded to microseconds, ties to even.  More than
    999999999 days in magnitude raises [OverflowError]. *)
Definition timedelta_hours (h : Q) : Result Z :=
  let intpart := Qtrunc h in
  let fracpart := (h - inject_Z intpart)%Q in
  let us :=
    round_half_even
      (inject_Z (intpart * US_PER_HOUR)
       + float64 (inject_Z US_PER_HOUR * fracpart))%Q in
  let days := us / US_PER_DAY in
  if (days <? -999999999) || (999999999 <? days) then Raise OverflowError
  else Ok us.

(** [timezone(offset)]: the offset must lie strictly between -24 h and
    24 h. *)
Definition timezone (offset : Z) : Result Z :=
  if (- US_PER_DAY <? offset) && (offset <? US_PER_DAY) then Ok offset
  else Raise ValueError.

Definition c_int (z : Z) : bool := (- 2 ^ 31 <=? z) && (z <? 2 ^ 31).

(** [datetime(year, month, day, hour, minute, tzinfo=tz)]: the arguments are
    converted to C ints ([OverflowError]), then range-checked
    ([ValueError]). *)
Definition datetime_new (y m d H M : Z) (tz : Z) : Result datetime :=
  if negb (c_int y && c_int m && c_int d && c_int H && c_int M)
  then Raise OverflowError
  else if negb ((MINYEAR <=? y) && (y <=? MAXYEAR)) then Raise ValueError
  else if negb ((1 <=? m) && (m <=? 12)) then Raise ValueError
  else if negb ((1 <=? d) && (d <=? _days_in_month y m)) then Raise ValueError
  else if negb ((0 <=? H) && (H <=? 23)) then Raise ValueError
  else if negb ((0 <=? M) && (M <=? 59)) then Raise ValueError
  else Ok (mk_datetime y m d H M 0 0 tz).

(** The wall-clock reading of [dt] in microseconds since the start of
    ordinal day 0. *)
Definition wall_us (dt : datetime) : Z :=
  ((_ymd2ord (year dt) (month dt) (day dt) * 24 + hour dt) * 60
   + minute dt) * 60 * US_PER_SECOND
  + second dt * US_PER_SECOND + microsecond dt.

(** [dt + delta]: through the ordinal; a day outside 1.._MAXORDINAL raises
    [OverflowError].  The [tzinfo] is kept. *)
Definition datetime_add (dt : datetime) (delta : Z) : Result datetime :=
  let total := wall_us dt + delta in
  let days := total / US_PER_DAY in
  let rem := total mod US_PER_DAY in
  let secs := rem / US_PER_SECOND in
  let us := rem mod US_PER_SECOND in
  let H := secs / 3600 in
  let rem := secs mod 3600 in
  let M := rem / 60 in
  let S := rem mod 60 in
  if (0 <? days) && (days <=? _MAXORDINAL) then
    let '(y, m, d) := _ord2ymd days in
    Ok (mk_datetime y m d H M S us (utcoffset dt))
  else Raise OverflowError.

Definition replace_tzinfo (dt : datetime) (tz : Z) : datetime :=
  mk_datetime (year dt) (month dt) (day dt) (hour dt) (minute dt)
              (second dt) (microsecond dt) tz.

(** [dt.astimezone(timezone.utc)].  [timezone(timedelta(0))] is the
    [timezone.utc] object itself, and then [dt] is returned as it is;
    otherwise [(dt - offset).replace(tzinfo=utc)] is handed to
    [utc.fromutc], which adds [timedelta(0)]. *)
Definition astimezone_utc (dt : datetime) : Result datetime :=
  if utcoffset dt =? 0 then Ok dt
  else
    shifted <- datetime_add dt (- utcoffset dt) ;;
    datetime_add (replace_tzinfo shifted 0) 0.

(** ** The Swiss Ephemeris module

    [swe] is an external library.  Its functions are parameters; the two that
    read ephemeris files take the search path set by [set_ephe_path], which
    is process-wide state.  The results are typed by the contract the handler
    relies on: [calc_ut] yields a flat tuple of numbers whose first item is
    the longitude, [houses] the cusps and the angles.  A library that
    answers in another shape (a tuple nested in a pair, as later releases of
    the Python binding do) is not an instance of this record. *)

Record SwissEph : Type := {
  (** [swe.julday(year, month, day, hour, cal)] *)
  julday : Z -> Z -> Z -> Q -> Z -> Q;
  (** [swe.calc_ut(jd, body)] under a search path: a tuple of floats whose
      first item is the ecliptic longitude, or an error. *)
  calc_ut : string -> Q -> Z -> Result (list Q);
  (** [swe.houses(jd, lat, lon, hsys)] under a search path: the house cusps
      and the angles, or an error. *)
  houses : string -> Q -> Q -> Q -> string -> Result (list Q * list Q)
}.

Definition GREG_CAL : Z := 1.
Definition SUN : Z := 0.
Definition MOON : Z := 1.

(** ** The request and response models *)

Module NatalRequest.
Record t : Type := mk {
  name : option string;
  birth_date : string;
  birth_time : option string;
  time_unknown : bool;
  latitude : Q;
  longitude : Q;
  tz_offset_hours : Q
}.
End NatalRequest.

Module PlanetPosition.
Record t : Type := mk {
  name : string;
  sign : string;
  longitude : Q
}.
End PlanetPosition.

Module NatalResponse.
Record t : Type := mk {
  sun_sign : string;
  moon_sign : string;
  ascendant_sign : string;
  ascendant_degree : Q;
  planets : list PlanetPosition.t
}.
End NatalResponse.

(** ** The pipeline *)

Definition _parse_local_datetime
  (birth_date : string) (birth_time : option string) (tz_offset_hours : Q)
  : Result datetime :=
  ymd <- unpack_map py_int 3 (str_split "-" birth_date) ;;
  hm <- (if truthy birth_time
         then unpack_map py_int 2
                (str_split ":" (match birth_time with
                                | Some s => s
                                | None => EmptyString
                                end))
         else Ok [12; 0]) ;;
  delta <- timedelta_hours tz_offset_hours ;;
  offset <- timezone delta ;;
  datetime_new (nth 0 ymd 0) (nth 1 ymd 0) (nth 2 ymd 0)
               (nth 0 hm 0) (nth 1 hm 0) offset.

Definition _julday_utc (swe : SwissEph) (dt_local : datetime) : Result Q :=
  dt_utc <- astimezone_utc dt_local ;;
  let year := year dt_utc in
  let month := month dt_utc in
  let day := day dt_utc in
  let hour_decimal :=
    (inject_Z (hour dt_utc) + inject_Z (minute dt_utc) / 60
     + inject_Z (second dt_utc) / 3600)%Q in
  Ok (julday swe year month day hour_decimal GREG_CAL).

(** ** The sign table *)

Definition SIGNS_RU : list string :=
  [ "Овен"; "Телец"; "Близнецы"; "Рак"; "Лев"; "Дева";
    "Весы"; "Скорпион"; "Стрелец"; "Козерог"; "Водолей"; "Рыбы" ]%string.

(** [seq[i]] for a list: a negative index counts from the end, an index out
    of range raises [IndexError]. *)
Definition py_getitem {A : Type} (l : list A) (i : Z) : Result A :=
  let n := Z.of_nat (List.length l) in
  let j := if i <? 0 then i + n else i in
  if (j <? 0) || (n <=? j) then Raise IndexError
  else match nth_error l (Z.to_nat j) with
       | Some a => Ok a
       | None => Raise IndexError
       end.

(** [int(lon // 30) % 12]: the floor division is the one of floats; [int]
    takes the integral part; [%] on integers takes the sign of the
    divisor. *)
Definition sign_index (lon : Q) : Z :=
  Qtrunc (float_floordiv lon 30) mod 12.

Definition _sign_from_longitude (lon : Q) : Result string :=
  let index := sign_index lon in
  py_getitem SIGNS_RU index.

(** The handler.  The ephemeris search path is threaded through: the
    result is paired with the path in force afterwards. *)
Definition calculate_natal_chart
  (swe : SwissEph) (payload : NatalRequest.t) (ephe_path : string)
  : Result NatalResponse.t * string :=
  match _parse_local_datetime (NatalRequest.birth_date payload)
          (NatalRequest.birth_time payload)
          (NatalRequest.tz_offset_hours payload) with
  | Raise e => (Raise e, ephe_path)
  | Ok dt_local =>
      match _julday_utc swe dt_local with
      | Raise e => (Raise e, ephe_path)
      | Ok jd_ut =>
          let ephe_path := "."%string in
          (sun <- calc_ut swe ephe_path jd_ut SUN ;;
           sun_lon <- unpack_head sun ;;
           moon <- calc_ut swe ephe_path jd_ut MOON ;;
           moon_lon <- unpack_head moon ;;
           '(_, ascmc) <- houses swe ephe_path jd_ut
                            (NatalRequest.latitude payload)
                            (NatalRequest.longitude payload) "P"%string ;;
           asc_deg <- py_getitem ascmc 0 ;;
           sun_pos_sign <- _sign_from_longitude sun_lon ;;
           moon_pos_sign <- _sign_from_longitude moon_lon ;;
           let planets :=
             [ PlanetPosition.mk "Солнце"%string sun_pos_sign sun_lon;
               PlanetPosition.mk "Луна"%string moon_pos_sign moon_lon ] in
           sun_sign <- _sign_from_longitude sun_lon ;;
           moon_sign <- _sign_from_longitude moon_lon ;;
           ascendant_sign <- _sign_from_longitude asc_deg ;;
           Ok (NatalResponse.mk sun_sign moon_sign ascendant_sign asc_deg
                 planets),
           ephe_path)
      end
  end.

(** The time normalizer of the pipeline: the first two steps of the
    handler. *)
Definition normalize (swe : SwissEph)
  (birth_date : string) (birth_time : option string) (tz_offset_hours : Q)
  : Result Q :=
  dt_local <- _parse_local_datetime birth_date birth_time tz_offset_hours ;;
  _julday_utc swe dt_local.

(** The application installs no exception handler and the handler raises no
    [HTTPException]: an exception that leaves the handler is answered by the
    framework with status 500, a returned response with 200. *)
Definition http_status {A : Type} (r : Result A) : Z :=
  match r with
  | Ok _ => 200
  | Raise _ => 500
  end.

Definition client_error (status : Z) : bool :=
  (400 <=? status) && (status <? 500).

(** ** Reference notions used by the statements *)

(** Modelled from the spec: [swe.julday] belongs to the external ephemeris
    library and is not part of the repository; the spec asks for the standard
    Julian-day algorithm under the Gregorian calendar convention.  This is
    that algorithm, for years from 1 on; [hour] is the decimal hour of the
    day. *)
Definition julian_day_standard (year month day : Z) (hour : Q) : Q :=
  let Y := if month <=? 2 then year - 1 else year in
  let M := if month <=? 2 then month + 12 else month in
  let A := Y / 100 in
  let B := 2 - A + A / 4 in
  (inject_Z (Qfloor ((36525 # 100) * inject_Z (Y + 4716))
             + Qfloor ((306001 # 10000) * inject_Z (M + 1))
             + day + B)
   + hour / 24 - (15245 # 10))%Q.

(** The continuous day count of an instant, given in microseconds of UTC
    since the start of ordinal day 0: ordinal day 1, the first of January of
    year 1, starts at Julian day 1721425.5. *)
Definition julian_day_of_instant (us : Z) : Q :=
  ((17214245 # 10) + inject_Z us / inject_Z US_PER_DAY)%Q.

(** The UTC instant of an aware datetime: its wall clock minus its offset. *)
Definition utc_instant (dt : datetime) : Z := wall_us dt - utcoffset dt.

(** The fields of [dt] are those of a datetime object. *)
Definition valid_datetime (dt : datetime) : bool :=
  (MINYEAR <=? year dt) && (year dt <=? MAXYEAR)
  && (1 <=? month dt) && (month dt <=? 12)
  && (1 <=? day dt) && (day dt <=? _days_in_month (year dt) (month dt))
  && (0 <=? hour dt) && (hour dt <=? 23)
  && (0 <=? minute dt) && (minute dt <=? 59)
  && (0 <=? second dt) && (second dt <=? 59)
  && (0 <=? microsecond dt) && (microsecond dt <? US_PER_SECOND).

(** The month and day of the zero-based day [n] of a year: the last part of
    [_ord2ymd], as a function of its own. *)
Definition month_day_of (leapyear : bool) (n : Z) : Z * Z :=
  let month := Z.shiftr (n + 50) 5 in
  let preceding :=
    table _DAYS_BEFORE_MONTH month
    + (if (2 <? month) && leapyear then 1 else 0) in
  if n <? preceding then
    let month := month - 1 in
    let preceding :=
      preceding
      - (table _DAYS_IN_MONTH month
         + (if (month =? 2) && leapyear then 1 else 0)) in
    (month, n - preceding + 1)
  else (month, n - preceding + 1).

(** The days of a year. *)
Definition year_length (leap : bool) : Z := if leap then 366 else 365.

(** [P] holds on the [count] integers from [lo] on: a bounded check that can
    be run. *)
Fixpoint range_all (P : Z -> bool) (lo : Z) (count : nat) : bool :=
  match count with
  | O => true
  | S c => P lo && range_all P (lo + 1) c
  end.

(** [month_day_of] yields a month and a day of that month that lie [n] days
    into the year. *)
Definition month_day_ok (leap : bool) (n : Z) : bool :=
  let '(m, d) := month_day_of leap n in
  (1 <=? m) && (m <=? 12) && (1 <=? d)
  && (d <=? (if (m =? 2) && leap then 29 else table _DAYS_IN_MONTH m))
  && (table _DAYS_BEFORE_MONTH m + (if (2 <? m) && leap then 1 else 0)
      + d - 1 =? n).

(** [month_day_of] finds day [d] of month [m] again from its position in the
    year, and that position is within the year. *)
Definition month_day_inv_ok (leap : bool) (m d : Z) : bool :=
  let dim := if (m =? 2) && leap then 29 else table _DAYS_IN_MONTH m in
  let dbm :=
    table _DAYS_BEFORE_MONTH m + (if (2 <? m) && leap then 1 else 0) in
  if d <=? dim then
    let '(m', d') := month_day_of leap (dbm + d - 1) in
    (m' =? m) && (d' =? d) && (dbm + d <=? year_length leap)
  else true.

(** The month term of the standard algorithm counts the days before the
    month, up to a constant for each of the two branches. *)
Definition month_term_ok (m : Z) : bool :=
  let M := if m <=? 2 then m + 12 else m in
  (306001 * (M + 1)) / 10000
  =? table _DAYS_BEFORE_MONTH m + (if m <=? 2 then 428 else 63).

(** A stand-in ephemeris used to instantiate the statements: the standard
    Julian day, fixed longitudes for the Sun and the Moon, and an ascendant
    that follows the geographic longitude. *)
Definition swe_sample : SwissEph := {|
  julday := fun y m d h _ => julian_day_standard y m d h;
  calc_ut := fun _ _ body =>
    Ok [if body =? SUN then 2803689 # 10000 else 2233237 # 10000; 0; 1]%Q;
  houses := fun _ _ _ lon _ => Ok ([], [lon + 360; 0])%Q
|}.

(** A stand-in ephemeris whose house computation fails beyond the polar
    circles, as the Placidus system does, and is [swe_sample] elsewhere. *)
Definition swe_polar : SwissEph := {|
  julday := julday swe_sample;
  calc_ut := calc_ut swe_sample;
  houses := fun path jd lat lon hsys =>
    if Qle_bool (-66) lat && Qle_bool lat 66
    then houses swe_sample path jd lat lon hsys
    else Raise SweError
|}.

Definition request_sample : NatalRequest.t :=
  NatalRequest.mk None "2000-01-01"%string (Some "12:00"%string) false
                  (5575 # 100) (3762 # 100) 0.

(** What the code accepts as a birth date: three integer literals separated
    by [-] that the [datetime] constructor takes as year, month and day. *)
Definition date_accepted (birth_date : string) : bool :=
  match unpack_map py_int 3 (str_split "-" birth_date) with
  | Ok [y; m; d] =>
      (MINYEAR <=? y) && (y <=? MAXYEAR) && (1 <=? m) && (m <=? 12)
      && (1 <=? d) && (d <=? _days_in_month y m)
  | _ => false
  end.

(** What the code accepts as a clock time: two integer literals separated by
    [:] that the [datetime] constructor takes as hour and minute. *)
Definition time_accepted (birth_time : string) : bool :=
  match unpack_map py_int 2 (str_split ":" birth_time) with
  | Ok [H; M] => (0 <=? H) && (H <=? 23) && (0 <=? M) && (M <=? 59)
  | _ => false
  end.

Definition with_birth_date (p : NatalRequest.t) (d : string) : NatalRequest.t :=
  NatalRequest.mk (NatalRequest.name p) d (NatalRequest.birth_time p)
    (NatalRequest.time_unknown p) (NatalRequest.latitude p)
    (NatalRequest.longitude p) (NatalRequest.tz_offset_hours p).

Definition with_birth_time (p : NatalRequest.t) (t : option string)
  : NatalRequest.t :=
  NatalRequest.mk (NatalRequest.name p) (NatalRequest.birth_date p) t
    (NatalRequest.time_unknown p) (NatalRequest.latitude p)
    (NatalRequest.longitude p) (NatalRequest.tz_offset_hours p).

Definition with_time_unknown (p : NatalRequest.t) (b : bool)
  : NatalRequest.t :=
  NatalRequest.mk (NatalRequest.name p) (NatalRequest.birth_date p)
    (NatalRequest.birth_time p) b (NatalRequest.latitude p)
    (NatalRequest.longitude p) (NatalRequest.tz_offset_hours p).

Definition with_latitude (p : NatalRequest.t) (lat : Q) : NatalRequest.t :=
  NatalRequest.mk (NatalRequest.name p) (NatalRequest.birth_date p)
    (NatalRequest.birth_time p) (NatalRequest.time_unknown p) lat
    (NatalRequest.longitude p) (NatalRequest.tz_offset_hours p).

Definition with_name (p : NatalRequest.t) (n : option string)
  : NatalRequest.t :=
  NatalRequest.mk n (NatalRequest.birth_date p)
    (NatalRequest.birth_time p) (NatalRequest.time_unknown p)
    (NatalRequest.latitude p) (NatalRequest.longitude p)
    (NatalRequest.tz_offset_hours p).

(** The UTC instant of [dt] falls on a day that a datetime can hold. *)
Definition utc_day_in_range (dt : datetime) : Prop :=
  1 <= utc_instant dt / US_PER_DAY <= _MAXORDINAL.

(** The string handed to the time parser when [birth_time] is truthy. *)
Definition time_text (birth_time : option string) : string :=
  match birth_time with
  | Some s => s
  | None => EmptyString
  end.

(** ** Theorems *)

Lemma sign_index_range (lon : Q) : 0 <= sign_index lon < 12.
Proof. unfold sign_index. apply Z.mod_pos_bound. lia. Qed.


(** ** The sign mapper *)

Lemma py_getitem_signs (i : Z) :
  0 <= i < 12 ->
  exists s, py_getitem SIGNS_RU i = Ok s /\ In s SIGNS_RU.
Proof.
  intros Hi.
  assert (Hc : i = 0 \/ i = 1 \/ i = 2 \/ i = 3 \/ i = 4 \/ i = 5 \/ i = 6
               \/ i = 7 \/ i = 8 \/ i = 9 \/ i = 10 \/ i = 11) by lia.
  repeat (destruct Hc as [-> | Hc]); try subst i;
    (eexists; split; [reflexivity | simpl; tauto]).
Qed.

Lemma sign_total (lon : Q) :
  exists s, _sign_from_longitude lon = Ok s /\ In s SIGNS_RU.
Proof.
  unfold _sign_from_longitude. apply py_getitem_signs, sign_index_range.
Qed.

(** *** Rounding to binary64 *)

Lemma round_half_even_int (x : Q) (n : Z) :
  (x == inject_Z n)%Q -> round_half_even x = n.
Proof.
  intros E. unfold round_half_even.
  assert (F : Qfloor x = n) by (rewrite E; apply Qfloor_Z).
  rewrite F.
  assert (L : Qcompare (x - inject_Z n) (1 # 2) = Lt).
  { apply -> Qlt_alt. rewrite E. unfold Qlt, Qminus, Qplus, Qopp, inject_Z.
    simpl. lia. }
  rewrite L. reflexivity.
Qed.

Lemma Qnum_zero_iff (q : Q) : Qnum q = 0 <-> (q == 0)%Q.
Proof. unfold Qeq. simpl. lia. Qed.

Lemma Qnum_neg_iff (q : Q) : Qnum q < 0 <-> (q < 0)%Q.
Proof. unfold Qlt. simpl. lia. Qed.

Lemma Qpow2_nonpos (e : Z) :
  e <= 0 -> (Qpow2 e * inject_Z (2 ^ (- e)) == 1)%Q.
Proof.
  intros He. unfold Qpow2.
  destruct (Z.leb_spec 0 e) as [H0 | Hn].
  - assert (e = 0) by lia. subst e. reflexivity.
  - assert (P : 0 < 2 ^ (- e)) by (apply Z.pow_pos_nonneg; lia).
    unfold Qeq, Qmult, inject_Z. cbn [Qnum Qden].
    rewrite Pos.mul_1_r, Z2Pos.id by exact P. lia.
Qed.

Lemma float64_zero (q : Q) : (q == 0)%Q -> float64 q = 0%Q.
Proof.
  intros E. apply Qnum_zero_iff in E. unfold float64. rewrite E. reflexivity.
Qed.

Lemma float64_int (q : Q) (z : Z) :
  (q == inject_Z z)%Q -> - 2 ^ 53 < z < 2 ^ 53 ->
  (float64 q == inject_Z z)%Q.
Proof.
  intros E Hz. change (2 ^ 53) with 9007199254740992 in Hz.
  destruct (Z.eq_dec z 0) as [-> | Hnz].
  { rewrite (float64_zero q E). reflexivity. }
  unfold float64.
  assert (N : Qnum q <> 0).
  { intros H. apply Qnum_zero_iff in H. rewrite H in E.
    unfold Qeq in E. simpl in E. lia. }
  destruct (Z.eqb_spec (Qnum q) 0) as [H | _]; [contradiction |].
  assert (A : (Qabs q == inject_Z (Z.abs z))%Q).
  { rewrite E. reflexivity. }
  assert (A1 : 1 <= Z.abs z < 9007199254740992) by lia.
  assert (L1 : Qle_bool 1 (Qabs q) = true).
  { apply Qle_bool_iff. rewrite A. change 1%Q with (inject_Z 1).
    rewrite <- Zle_Qle. lia. }
  unfold Qlog2. rewrite L1.
  assert (F : Qfloor (Qabs q) = Z.abs z) by (rewrite A; apply Qfloor_Z).
  rewrite F.
  set (l := Z.log2 (Z.abs z)).
  assert (Hl : 0 <= l <= 52).
  { split; [apply Z.log2_nonneg |].
    assert (l < 53)
      by (apply (proj1 (Z.log2_lt_pow2 (Z.abs z) 53 ltac:(lia)));
          change (2 ^ 53) with 9007199254740992; lia).
    lia. }
  rewrite Z.max_l by lia.
  set (e := l - 52).
  pose proof (Qpow2_nonpos e ltac:(lia)) as P.
  assert (Pp : (0 < Qpow2 e)%Q).
  { unfold Qpow2. destruct (Z.leb_spec 0 e).
    - change 0%Q with (inject_Z 0). rewrite <- Zlt_Qlt.
      apply Z.pow_pos_nonneg; lia.
    - reflexivity. }
  assert (R : (inject_Z (Z.abs z * 2 ^ (- e)) * Qpow2 e
               == inject_Z (Z.abs z))%Q).
  { rewrite inject_Z_mult, <- Qmult_assoc,
      (Qmult_comm (inject_Z (2 ^ (- e)))), P. apply Qmult_1_r. }
  assert (D : (Qabs q / Qpow2 e == inject_Z (Z.abs z * 2 ^ (- e)))%Q).
  { rewrite A, <- R. apply Qdiv_mult_l.
    intros H0. rewrite H0 in Pp. discriminate. }
  rewrite (round_half_even_int _ _ D).
  destruct (Z.ltb_spec (Qnum q) 0) as [Hneg | Hpos].
  - apply Qnum_neg_iff in Hneg. rewrite E in Hneg.
    change 0%Q with (inject_Z 0) in Hneg. rewrite <- Zlt_Qlt in Hneg.
    rewrite R. rewrite <- inject_Z_opp. rewrite Z.abs_neq by lia.
    rewrite Z.opp_involutive. reflexivity.
  - assert (Hz0 : 0 <= z).
    { assert (~ (q < 0)%Q) by (rewrite <- Qnum_neg_iff; lia).
      rewrite E in H. change 0%Q with (inject_Z 0) in H.
      rewrite <- Zlt_Qlt in H. lia. }
    rewrite R. rewrite Z.abs_eq by lia. reflexivity.
Qed.

Lemma Qlt_bool_iff (x y : Q) : Qlt_bool x y = true <-> (x < y)%Q.
Proof.
  unfold Qlt_bool. rewrite negb_true_iff. split.
  - intros H. apply Qnot_le_lt. intros L. apply Qle_bool_iff in L. congruence.
  - intros H. destruct (Qle_bool y x) eqn:E; [| reflexivity].
    apply Qle_bool_iff in E. exfalso. apply (Qlt_not_le _ _ H E).
Qed.

Lemma Qtrunc_spec (x : Q) :
  ((0 <= x)%Q /\ Qtrunc x = Qfloor x)
  \/ ((x < 0)%Q /\ Qtrunc x = Qceiling x).
Proof.
  unfold Qtrunc. destruct (Qle_bool 0 x) eqn:E.
  - left. apply Qle_bool_iff in E. auto.
  - right. split; [| reflexivity]. apply Qnot_le_lt. intros L.
    apply Qle_bool_iff in L. congruence.
Qed.

(** A value equal to an integer: the snap to the nearest integer at the end
    of the floor division leaves it alone. *)
Lemma floor_snap_int (div : Q) (d : Z) :
  (div == inject_Z d)%Q ->
  ((if negb (Qeq_bool div 0) then
      if Qlt_bool (1 # 2) (div - inject_Z (Qfloor div))
      then float64 (inject_Z (Qfloor div) + 1)
      else inject_Z (Qfloor div)
    else 0) == inject_Z d)%Q.
Proof.
  intros E.
  assert (F : Qfloor div = d) by (rewrite E; apply Qfloor_Z).
  rewrite F.
  destruct (Qeq_bool div 0) eqn:Z0; cbn [negb].
  - apply Qeq_bool_iff in Z0. rewrite <- E, Z0. reflexivity.
  - destruct (Qlt_bool (1 # 2) (div - inject_Z d)) eqn:L;
      [| reflexivity].
    exfalso. apply Qlt_bool_iff in L. rewrite E in L.
    unfold Qlt, Qminus, Qplus, Qopp, inject_Z in L. simpl in L. lia.
Qed.

Lemma float_floordiv_exact (lon : Q) :
  (inject_Z (- 2 ^ 53) < lon)%Q -> (lon < inject_Z (2 ^ 53))%Q ->
  (float_floordiv lon 30 == inject_Z (Qfloor (lon / 30)))%Q.
Proof.
  intros Hlo Hhi.
  change (- 2 ^ 53) with (-9007199254740992) in Hlo.
  change (2 ^ 53) with 9007199254740992 in Hhi.
  set (x := (lon / 30)%Q).
  assert (X : (lon == x * 30)%Q) by (unfold x; field).
  pose proof (Qfloor_le x) as Fl. pose proof (Qlt_floor x) as Fu.
  pose proof (Qle_ceiling x) as Cl. pose proof (Qceiling_lt x) as Cu.
  set (t := Qtrunc x).
  assert (T : ((0 <= x)%Q /\ 0 <= t /\ Qfloor x = t /\ (inject_Z t <= x)%Q)
              \/ ((x < 0)%Q /\ t <= 0
                  /\ ((inject_Z t == x)%Q /\ Qfloor x = t
                      \/ (x < inject_Z t)%Q /\ Qfloor x = t - 1))).
  { destruct (Qtrunc_spec x) as [[H0 Ht] | [H0 Ht]]; fold t in Ht.
    - left. split; [assumption |].
      split; [rewrite Ht; apply Qfloor_resp_le in H0; exact H0 |].
      split; [congruence |]. rewrite Ht. exact Fl.
    - right. split; [assumption |].
      assert (C0 : Qceiling x <= 0).
      { apply Qlt_le_weak in H0. apply Qceiling_resp_le in H0. exact H0. }
      split; [lia |].
      destruct (Qlt_le_dec x (inject_Z t)) as [Hlt | Hge].
      + right. split; [assumption |].
        assert (Qfloor x < t).
        { rewrite Zlt_Qlt. eapply Qle_lt_trans; [apply Fl | exact Hlt]. }
        assert (t - 1 < Qfloor x + 1).
        { rewrite Zlt_Qlt. eapply Qlt_trans; [| apply Fu].
          rewrite Ht. apply Cu. }
        lia.
      + left.
        assert (Ex : (inject_Z t == x)%Q).
        { apply Qle_antisym; [exact Hge |]. rewrite Ht. apply Cl. }
        split; [exact Ex |]. rewrite <- Ex. apply Qfloor_Z. }
  assert (B : - 9007199254740992 < t * 30 < 9007199254740992).
  { assert (Bx : (inject_Z (-9007199254740992) < x * 30)%Q
                 /\ (x * 30 < inject_Z 9007199254740992)%Q).
    { rewrite <- X. split; assumption. }
    destruct Bx as [Bl Bu].
    destruct T as [(H0 & T0 & _ & Tle) | (H0 & T0 & _)].
    - split; [lia |]. rewrite Zlt_Qlt. eapply Qle_lt_trans; [| exact Bu].
      rewrite inject_Z_mult. apply Qmult_le_compat_r; [exact Tle |].
      discriminate.
    - split; [| lia]. rewrite Zlt_Qlt. eapply Qlt_le_trans; [exact Bl |].
      rewrite inject_Z_mult. apply Qmult_le_compat_r; [| discriminate].
      unfold t. destruct (Qtrunc_spec x) as [[H1 Ht] | [H1 Ht]].
      + exfalso. apply (Qlt_not_le _ _ H0 H1).
      + rewrite Ht. apply Cl. }
  unfold float_floordiv.
  set (rest := fmod lon 30).
  assert (Rv : (rest == (x - inject_Z t) * 30)%Q).
  { unfold rest, fmod. fold x. fold t. rewrite X at 1. ring. }
  assert (S1 : (lon - rest == inject_Z (t * 30))%Q).
  { rewrite Rv, inject_Z_mult. rewrite X at 1. change (inject_Z 30) with 30%Q.
    ring. }
  pose proof (float64_int _ _ S1 B) as F1.
  assert (S2 : (float64 (lon - rest) / 30 == inject_Z t)%Q).
  { rewrite F1, inject_Z_mult. change (inject_Z 30) with 30%Q. field. }
  pose proof (float64_int _ _ S2 ltac:(change (2 ^ 53) with 9007199254740992; lia)) as F2.
  assert (W : Qlt_bool 30 0 = false) by reflexivity.
  rewrite W.
  set (cond := negb (Qeq_bool rest 0) && negb (eqb false (Qlt_bool rest 0))).
  assert (Dv : ((if cond
                 then float64 (float64 (float64 (lon - rest) / 30) - 1)
                 else float64 (float64 (lon - rest) / 30))
                == inject_Z (Qfloor x))%Q).
  { destruct T as [(H0 & T0 & Tf & Tle) | (H0 & T0 & [(Ex & Tf) | (Hlt & Tf)])].
    - assert (C : cond = false).
      { unfold cond. destruct (Qlt_bool rest 0) eqn:L.
        + exfalso. apply Qlt_bool_iff in L. rewrite Rv in L.
          assert ((0 <= (x - inject_Z t) * 30)%Q).
          { apply Qmult_le_0_compat; [| discriminate].
            rewrite <- (Qplus_opp_r (inject_Z t)).
            apply Qplus_le_l. exact Tle. }
          apply (Qlt_not_le _ _ L H).
        + cbn. apply andb_false_r. }
      rewrite C, Tf. exact F2.
    - assert (C : cond = false).
      { unfold cond. assert (Z0 : (rest == 0)%Q).
        { rewrite Rv, <- Ex. ring. }
        apply Qeq_bool_iff in Z0. rewrite Z0. reflexivity. }
      rewrite C, Tf. exact F2.
    - assert (Rn : (rest < 0)%Q).
      { rewrite Rv. 
        setoid_replace 0%Q with (0 * 30)%Q by ring.
        apply Qmult_lt_compat_r; [reflexivity |].
        rewrite <- (Qplus_opp_r (inject_Z t)). apply Qplus_lt_l. exact Hlt. }
      assert (C : cond = true).
      { unfold cond. apply Qlt_bool_iff in Rn as L. rewrite L.
        destruct (Qeq_bool rest 0) eqn:Z0; [| reflexivity].
        apply Qeq_bool_iff in Z0. rewrite Z0 in Rn. discriminate. }
      rewrite C, Tf.
      apply float64_int; [| change (2 ^ 53) with 9007199254740992; lia].
      rewrite F2. unfold Z.sub. rewrite inject_Z_plus. reflexivity. }
  apply (floor_snap_int _ _ Dv).
Qed.

(** *** The index of the sign *)

Lemma Qfloor_div30 (a : Z) (b : positive) :
  Qfloor ((a # b) / 30) = a / (Z.pos b * 30).
Proof.
  unfold Qdiv, Qmult, Qinv, Qfloor; simpl.
  rewrite Z.mul_1_r. reflexivity.
Qed.

Lemma Qtrunc_int (q : Q) (d : Z) : (q == inject_Z d)%Q -> Qtrunc q = d.
Proof.
  intros E. unfold Qtrunc. destruct (Qle_bool 0 q).
  - rewrite E. apply Qfloor_Z.
  - rewrite E. apply Qceiling_Z.
Qed.

(** Below 2^53 in magnitude the floor division of floats is the floor of the
    quotient. *)
Lemma sign_index_exact (lon : Q) :
  (inject_Z (- 2 ^ 53) < lon)%Q -> (lon < inject_Z (2 ^ 53))%Q ->
  sign_index lon = Qfloor (lon / 30) mod 12.
Proof.
  intros Hlo Hhi. unfold sign_index.
  rewrite (Qtrunc_int _ _ (float_floordiv_exact lon Hlo Hhi)). reflexivity.
Qed.

Lemma floor_shift (lon : Q) :
  Qfloor ((lon + 360) / 30) mod 12 = Qfloor (lon / 30) mod 12.
Proof.
  destruct lon as [a b].
  assert (E : ((a # b) + 360 == (a + 360 * Z.pos b) # b)%Q).
  { unfold Qeq, Qplus; simpl. lia. }
  assert (E' : (((a # b) + 360) / 30 == ((a + 360 * Z.pos b) # b) / 30)%Q)
    by (rewrite E; reflexivity).
  rewrite (Qfloor_comp _ _ E').
  rewrite !Qfloor_div30.
  replace (a + 360 * Z.pos b) with (a + 12 * (Z.pos b * 30)) by lia.
  rewrite Z.div_add by lia.
  rewrite Z.add_mod by lia. rewrite Z.mod_same by lia.
  rewrite Z.add_0_r. apply Z.mod_mod. lia.
Qed.

Lemma sign_index_shift (lon : Q) :
  (inject_Z (- 2 ^ 53) < lon)%Q -> (lon + 360 < inject_Z (2 ^ 53))%Q ->
  sign_index (lon + 360) = sign_index lon.
Proof.
  intros Hlo Hhi.
  assert (U : (lon < lon + 360)%Q).
  { rewrite <- (Qplus_0_r lon) at 1. apply Qplus_lt_r. reflexivity. }
  rewrite (sign_index_exact lon Hlo (Qlt_trans _ _ _ U Hhi)).
  rewrite (sign_index_exact (lon + 360) (Qlt_trans _ _ _ Hlo U) Hhi).
  apply floor_shift.
Qed.

Lemma sign_index_last (lon : Q) :
  (-30 <= lon)%Q -> (lon < 0)%Q -> sign_index lon = 11.
Proof.
  intros Hlo Hhi.
  rewrite sign_index_exact.
  - destruct lon as [a b].
    rewrite Qfloor_div30.
    unfold Qle in Hlo. unfold Qlt in Hhi. simpl in Hlo, Hhi.
    assert (E : a / (Z.pos b * 30) = -1).
    { symmetry. apply Z.div_unique with (r := a + Z.pos b * 30); lia. }
    rewrite E. reflexivity.
  - eapply Qlt_le_trans; [| exact Hlo]. reflexivity.
  - eapply Qlt_trans; [exact Hhi |]. reflexivity.
Qed.

(** C1.  The boundary table of the sign mapper: 0 and 29.999 lie in the first
    sign, 30 in the second, -0.001 and 359.999 in the last.  A negative
    longitude never raises and never yields a negative index, and from -30
    up to 0 (for instance at -10) it maps to the last sign. *)
Theorem sign_boundary_table :
  _sign_from_longitude 0 = Ok "Овен"%string
  /\ _sign_from_longitude (29999 # 1000) = Ok "Овен"%string
  /\ _sign_from_longitude 30 = Ok "Телец"%string
  /\ _sign_from_longitude (- 1 # 1000) = Ok "Рыбы"%string
  /\ _sign_from_longitude (359999 # 1000) = Ok "Рыбы"%string
  /\ _sign_from_longitude (- 1 # 1000) = _sign_from_longitude (359999 # 1000)
  /\ forall lon : Q,
       (lon < 0)%Q ->
       0 <= sign_index lon < 12
       /\ (exists s, _sign_from_longitude lon = Ok s /\ In s SIGNS_RU)
       /\ ((-30 <= lon)%Q -> _sign_from_longitude lon = Ok "Рыбы"%string).
Proof.
  do 6 (split; [vm_compute; reflexivity |]).
  intros lon Hneg. split; [apply sign_index_range |].
  split; [apply sign_total |].
  intros Hlo. unfold _sign_from_longitude.
  rewrite (sign_index_last lon Hlo Hneg). reflexivity.
Qed.

Lemma sign_boundary_table_witness :
  (-10 < 0)%Q
  /\ (-30 <= -10)%Q
  /\ _sign_from_longitude (-10) = Ok "Рыбы"%string.
Proof.
  assert (Hneg : (-10 < 0)%Q) by reflexivity.
  assert (Hlo : (-30 <= -10)%Q) by (unfold Qle; simpl; lia).
  split; [exact Hneg |]. split; [exact Hlo |].
  destruct sign_boundary_table as (_ & _ & _ & _ & _ & _ & H).
  exact (proj2 (proj2 (H (-10)%Q Hneg)) Hlo).
Defined.

(** C3, as amended.  The sign mapper is total: every longitude has a sign.
    It is cyclic when the full turn is added exactly: for a longitude [L]
    with [L] above -2^53 and [L + 360] below 2^53, [L] and the exact sum
    [L + 360] have the same sign. *)
Theorem sign_cyclic (L : Q) :
  (exists s, _sign_from_longitude L = Ok s /\ In s SIGNS_RU)
  /\ ((inject_Z (- 2 ^ 53) < L)%Q -> (L + 360 < inject_Z (2 ^ 53))%Q ->
      _sign_from_longitude L = _sign_from_longitude (L + 360)).
Proof.
  split; [apply sign_total |].
  intros Hlo Hhi.
  unfold _sign_from_longitude. rewrite (sign_index_shift L Hlo Hhi).
  reflexivity.
Qed.

Lemma sign_cyclic_witness :
  _sign_from_longitude (- 1 # 1000)
  = _sign_from_longitude ((- 1 # 1000) + 360).
Proof.
  apply (proj2 (sign_cyclic (- 1 # 1000))); reflexivity.
Defined.

(** C3, as stated, fails on floats: 30 - 2^-48 is a double and lies in the
    first sign, but its float sum with 360 is 390.0, which lies in the
    second. *)
Lemma sign_not_cyclic_on_floats :
  (float64 (30 - (1 # 281474976710656)) == 30 - (1 # 281474976710656))%Q
  /\ (float_add (30 - (1 # 281474976710656)) 360 == 390)%Q
  /\ _sign_from_longitude (30 - (1 # 281474976710656)) = Ok "Овен"%string
  /\ _sign_from_longitude (float_add (30 - (1 # 281474976710656)) 360)
     = Ok "Телец"%string
  /\ _sign_from_longitude (30 - (1 # 281474976710656))
     <> _sign_from_longitude (float_add (30 - (1 # 281474976710656)) 360).
Proof.
  split; [vm_compute; reflexivity |]. split; [vm_compute; reflexivity |].
  split; [vm_compute; reflexivity |]. split; [vm_compute; reflexivity |].
  vm_compute. discriminate.
Qed.

(** ** The default birth time *)

Lemma noon_literal : unpack_map py_int 2 (str_split ":" "12:00") = Ok [12; 0].
Proof. reflexivity. Qed.

Lemma parse_noon (birth_date : string) (tz : Q) :
  _parse_local_datetime birth_date (Some "12:00"%string) tz
  = _parse_local_datetime birth_date None tz.
Proof.
  unfold _parse_local_datetime. cbn [truthy]. rewrite noon_literal.
  reflexivity.
Qed.

Lemma parse_empty_time (birth_date : string) (tz : Q) :
  _parse_local_datetime birth_date (Some EmptyString) tz
  = _parse_local_datetime birth_date None tz.
Proof. reflexivity. Qed.

(** C4.  Normalization with an absent birth time equals normalization with
    the birth time 12:00, for every date string and offset; on 2000-01-01 at
    offset 0 both are the Julian day the ephemeris computes for noon of that
    day. *)
Theorem missing_time_defaults_to_noon (swe : SwissEph) :
  (forall (birth_date : string) (tz : Q),
     normalize swe birth_date None tz
     = normalize swe birth_date (Some "12:00"%string) tz)
  /\ normalize swe "2000-01-01" None 0
     = normalize swe "2000-01-01" (Some "12:00"%string) 0
  /\ exists h : Q,
       (h == 12)%Q
       /\ normalize swe "2000-01-01" None 0
          = Ok (julday swe 2000 1 1 h GREG_CAL).
Proof.
  assert (G : forall d tz,
             normalize swe d None tz = normalize swe d (Some "12:00"%string) tz).
  { intros d tz. unfold normalize. rewrite parse_noon. reflexivity. }
  split; [exact G |]. split; [apply G |].
  eexists. split; [| reflexivity]. reflexivity.
Qed.

(** ** The handler *)

(** C8.  The response does not depend on [time_unknown]: two requests that
    agree on every other field get the same result. *)
Theorem time_unknown_noninterference
  (swe : SwissEph) (p1 p2 : NatalRequest.t) (ephe_path : string) :
  NatalRequest.name p1 = NatalRequest.name p2 ->
  NatalRequest.birth_date p1 = NatalRequest.birth_date p2 ->
  NatalRequest.birth_time p1 = NatalRequest.birth_time p2 ->
  NatalRequest.latitude p1 = NatalRequest.latitude p2 ->
  NatalRequest.longitude p1 = NatalRequest.longitude p2 ->
  NatalRequest.tz_offset_hours p1 = NatalRequest.tz_offset_hours p2 ->
  calculate_natal_chart swe p1 ephe_path
  = calculate_natal_chart swe p2 ephe_path.
Proof.
  intros _ Hd Ht Hlat Hlon Htz. unfold calculate_natal_chart.
  rewrite Hd, Ht, Hlat, Hlon, Htz. reflexivity.
Qed.

Lemma time_unknown_noninterference_witness :
  NatalRequest.time_unknown request_sample
  <> NatalRequest.time_unknown (with_time_unknown request_sample true)
  /\ calculate_natal_chart swe_sample request_sample ""
     = calculate_natal_chart swe_sample
         (with_time_unknown request_sample true) "".
Proof.
  split; [discriminate |].
  apply (time_unknown_noninterference swe_sample request_sample
           (with_time_unknown request_sample true) "");
    reflexivity.
Defined.

Lemma bind_ok {A B : Type} (r : Result A) (k : A -> Result B) (b : B) :
  bind r k = Ok b -> exists a, r = Ok a /\ k a = Ok b.
Proof. destruct r as [a | e]; simpl; [eauto | discriminate]. Qed.

(** C6.  A successful response lists exactly two planets, the Sun and then
    the Moon, each with the sign of its longitude and that longitude; the
    three signs are the sign mapper applied to the longitudes of the Sun, of
    the Moon and of the ascendant, and the ascendant degree is the first
    angle returned by the ephemeris, as it is. *)
Theorem response_shape
  (swe : SwissEph) (payload : NatalRequest.t) (ephe_path ephe_path' : string)
  (resp : NatalResponse.t) :
  calculate_natal_chart swe payload ephe_path = (Ok resp, ephe_path') ->
  exists (jd_ut sun_lon moon_lon asc_deg : Q)
         (sun_rest moon_rest cusps asc_rest : list Q),
    normalize swe (NatalRequest.birth_date payload)
              (NatalRequest.birth_time payload)
              (NatalRequest.tz_offset_hours payload) = Ok jd_ut
    /\ calc_ut swe "." jd_ut SUN = Ok (sun_lon :: sun_rest)
    /\ calc_ut swe "." jd_ut MOON = Ok (moon_lon :: moon_rest)
    /\ houses swe "." jd_ut (NatalRequest.latitude payload)
              (NatalRequest.longitude payload) "P"
       = Ok (cusps, asc_deg :: asc_rest)
    /\ NatalResponse.planets resp
       = [ PlanetPosition.mk "Солнце" (NatalResponse.sun_sign resp) sun_lon;
           PlanetPosition.mk "Луна" (NatalResponse.moon_sign resp) moon_lon ]
    /\ _sign_from_longitude sun_lon = Ok (NatalResponse.sun_sign resp)
    /\ _sign_from_longitude moon_lon = Ok (NatalResponse.moon_sign resp)
    /\ _sign_from_longitude asc_deg = Ok (NatalResponse.ascendant_sign resp)
    /\ NatalResponse.ascendant_degree resp = asc_deg.
Proof.
  unfold calculate_natal_chart, normalize.
  destruct (_parse_local_datetime _ _ _) as [dt | e]; [| discriminate].
  simpl bind at 1.
  destruct (_julday_utc swe dt) as [jd | e] eqn:Hjd; [| discriminate].
  intros H. injection H as H _.
  apply bind_ok in H. destruct H as (sun & Hsun & H).
  apply bind_ok in H. destruct H as (sun_lon & Hsl & H).
  apply bind_ok in H. destruct H as (moon & Hmoon & H).
  apply bind_ok in H. destruct H as (moon_lon & Hml & H).
  apply bind_ok in H. destruct H as ([cusps ascmc] & Hh & H).
  apply bind_ok in H. destruct H as (asc & Hasc & H).
  apply bind_ok in H. destruct H as (s1 & Hs1 & H).
  apply bind_ok in H. destruct H as (s2 & Hs2 & H).
  apply bind_ok in H. destruct H as (s3 & Hs3 & H).
  apply bind_ok in H. destruct H as (s4 & Hs4 & H).
  apply bind_ok in H. destruct H as (s5 & Hs5 & H).
  injection H as <-.
  destruct sun as [| sl sun_rest]; [discriminate |].
  destruct moon as [| ml moon_rest]; [discriminate |].
  destruct ascmc as [| a asc_rest]; [discriminate |].
  simpl in Hsl, Hml. injection Hsl as ->. injection Hml as ->.
  assert (a = asc) by (cbv in Hasc; congruence). subst a.
  rewrite Hs3 in Hs1. injection Hs1 as ->.
  rewrite Hs4 in Hs2. injection Hs2 as ->.
  exists jd, sun_lon, moon_lon, asc, sun_rest, moon_rest, cusps, asc_rest.
  simpl. repeat split; assumption.
Qed.

Lemma response_shape_witness :
  exists resp : NatalResponse.t,
    calculate_natal_chart swe_sample request_sample "" = (Ok resp, "."%string)
    /\ List.length (NatalResponse.planets resp) = 2%nat
    /\ NatalResponse.ascendant_degree resp = ((3762 # 100) + 360)%Q.
Proof.
  destruct (calculate_natal_chart swe_sample request_sample "")
    as [[resp | e] path] eqn:E; [| vm_compute in E; discriminate E].
  assert (P : path = "."%string) by (vm_compute in E; congruence).
  subst path. exists resp. split; [reflexivity |].
  destruct (response_shape swe_sample request_sample "" "." resp E)
    as (jd & sl & ml & asc & r1 & r2 & c & r3 & _ & _ & _ & Hh & Hpl & _
        & _ & _ & Hdeg).
  split; [rewrite Hpl; reflexivity |].
  rewrite Hdeg.
  cbv beta iota delta [swe_sample houses request_sample
                       NatalRequest.longitude NatalRequest.latitude] in Hh.
  congruence.
Defined.

(** ** Failures of the time normalizer *)

Lemma py_int_raises (s : string) (e : exn) :
  py_int s = Raise e -> e = ValueError.
Proof.
  unfold py_int.
  destruct (match strip (map to_ascii_decimal_and_space (code_points s)) with
            | [] => _
            | c :: rest => _
            end) as [neg ds].
  destruct (int_digits 0 false ds); [| congruence].
  destruct (MAX_STR_DIGITS <? count_digits ds); [congruence | discriminate].
Qed.

Lemma map_result_raises {A B : Type} (f : A -> Result B) (l : list A) (e : exn) :
  (forall a e', f a = Raise e' -> e' = ValueError) ->
  map_result f l = Raise e -> e = ValueError.
Proof.
  intros Hf. induction l as [| a l IH]; simpl; [discriminate |].
  destruct (f a) as [b | e'] eqn:Ea; simpl.
  - destruct (map_result f l) as [bs | e'']; simpl; [discriminate |].
    intros H. apply IH. congruence.
  - intros H. apply (Hf a). congruence.
Qed.

Lemma map_result_length {A B : Type} (f : A -> Result B) (l : list A)
  (bs : list B) :
  map_result f l = Ok bs -> List.length bs = List.length l.
Proof.
  revert bs. induction l as [| a l IH]; simpl; intros bs H.
  - injection H as <-. reflexivity.
  - destruct (f a) as [b | e]; simpl in H; [| discriminate].
    destruct (map_result f l) as [bs' | e]; simpl in H; [| discriminate].
    injection H as <-. simpl. f_equal. apply IH. reflexivity.
Qed.

Lemma unpack_map_raises {A B : Type} (f : A -> Result B) (n : nat)
  (l : list A) (e : exn) :
  (forall a e', f a = Raise e' -> e' = ValueError) ->
  unpack_map f n l = Raise e -> e = ValueError.
Proof.
  intros Hf. unfold unpack_map.
  destruct (map_result f (firstn n l)) as [vs | e'] eqn:Em; simpl.
  - destruct (List.length l <? n)%nat; [congruence |].
    destruct (skipn n l) as [| extra rest]; [discriminate |].
    destruct (f extra) as [b | e'] eqn:Ex; simpl; [congruence |].
    intros H. apply (Hf extra). congruence.
  - intros H. injection H as <-. apply (map_result_raises f _ e' Hf Em).
Qed.

Lemma unpack_map_length {A B : Type} (f : A -> Result B) (n : nat)
  (l : list A) (vs : list B) :
  unpack_map f n l = Ok vs -> List.length vs = n.
Proof.
  unfold unpack_map.
  destruct (map_result f (firstn n l)) as [ws | e] eqn:Em; simpl;
    [| discriminate].
  destruct (List.length l <? n)%nat eqn:El; [discriminate |].
  destruct (skipn n l) as [| extra rest]; [| destruct (f extra); discriminate].
  intros H. injection H as <-.
  rewrite (map_result_length _ _ _ Em), length_firstn.
  apply Nat.ltb_ge in El. lia.
Qed.

Lemma unpack_int3 (l : list string) (vs : list Z) :
  unpack_map py_int 3 l = Ok vs -> exists y m d, vs = [y; m; d].
Proof.
  intros H. apply unpack_map_length in H.
  destruct vs as [| y [| m [| d [| ? ?]]]]; try discriminate. eauto.
Qed.

Lemma unpack_int2 (l : list string) (vs : list Z) :
  unpack_map py_int 2 l = Ok vs -> exists H M, vs = [H; M].
Proof.
  intros H. apply unpack_map_length in H.
  destruct vs as [| h [| m [| ? ?]]]; try discriminate. eauto.
Qed.

Lemma timedelta_hours_raises (h : Q) (e : exn) :
  timedelta_hours h = Raise e -> e = OverflowError.
Proof.
  unfold timedelta_hours.
  destruct (_ || _); [congruence | discriminate].
Qed.

Lemma timezone_inv (delta offset : Z) :
  timezone delta = Ok offset ->
  offset = delta /\ - US_PER_DAY < offset < US_PER_DAY.
Proof.
  unfold timezone.
  destruct (- US_PER_DAY <? delta) eqn:E1; simpl; [| discriminate].
  destruct (delta <? US_PER_DAY) eqn:E2; [| discriminate].
  intros H. injection H as <-. apply Z.ltb_lt in E1. apply Z.ltb_lt in E2.
  auto.
Qed.

Lemma timezone_raises (delta : Z) (e : exn) :
  timezone delta = Raise e -> e = ValueError.
Proof. unfold timezone. destruct (_ && _); [discriminate | congruence]. Qed.

Lemma datetime_new_raises (y m d H M tz : Z) (e : exn) :
  datetime_new y m d H M tz = Raise e -> e = ValueError \/ e = OverflowError.
Proof.
  unfold datetime_new.
  repeat match goal with
         | |- (if ?b then _ else _) = _ -> _ => destruct b
         end; intros E; try discriminate; injection E as <-; auto.
Qed.

Lemma datetime_new_inv (y m d H M tz : Z) (dt : datetime) :
  datetime_new y m d H M tz = Ok dt ->
  dt = mk_datetime y m d H M 0 0 tz
  /\ (MINYEAR <= y <= MAXYEAR) /\ (1 <= m <= 12)
  /\ (1 <= d <= _days_in_month y m) /\ (0 <= H <= 23) /\ (0 <= M <= 59).
Proof.
  unfold datetime_new.
  destruct (negb (c_int y && _ && _ && _ && _)); [discriminate |].
  destruct ((MINYEAR <=? y) && (y <=? MAXYEAR)) eqn:Ey; [| discriminate].
  destruct ((1 <=? m) && (m <=? 12)) eqn:Em; [| discriminate].
  destruct ((1 <=? d) && (d <=? _days_in_month y m)) eqn:Ed; [| discriminate].
  destruct ((0 <=? H) && (H <=? 23)) eqn:EH; [| discriminate].
  destruct ((0 <=? M) && (M <=? 59)) eqn:EM; [| discriminate].
  simpl. intros E. injection E as <-.
  apply andb_prop in Ey, Em, Ed, EH, EM.
  repeat split; lia.
Qed.

(** Whatever the time normalizer raises is a [ValueError] or an
    [OverflowError]. *)
Lemma parse_raises_kind (birth_date : string) (birth_time : option string)
  (tz : Q) (e : exn) :
  _parse_local_datetime birth_date birth_time tz = Raise e ->
  e = ValueError \/ e = OverflowError.
Proof.
  unfold _parse_local_datetime.
  destruct (unpack_map py_int 3 _) as [ymd | e1] eqn:E1; simpl.
  2: { intros H. left. apply (unpack_map_raises _ _ _ _ py_int_raises) in E1.
       congruence. }
  destruct (if truthy birth_time then _ else _) as [hm | e2] eqn:E2; simpl.
  2: { intros H. left. destruct (truthy birth_time); [| discriminate].
       apply (unpack_map_raises _ _ _ _ py_int_raises) in E2. congruence. }
  destruct (timedelta_hours tz) as [delta | e3] eqn:E3; simpl.
  2: { intros H. right. apply timedelta_hours_raises in E3. congruence. }
  destruct (timezone delta) as [offset | e4] eqn:E4; simpl.
  2: { intros H. left. apply timezone_raises in E4. congruence. }
  apply datetime_new_raises.
Qed.

(** What a successful parse tells about its arguments. *)
Lemma parse_ok_inv (birth_date : string) (birth_time : option string)
  (tz : Q) (dt : datetime) :
  _parse_local_datetime birth_date birth_time tz = Ok dt ->
  exists y m d H M offset,
    unpack_map py_int 3 (str_split "-" birth_date) = Ok [y; m; d]
    /\ (if truthy birth_time
        then unpack_map py_int 2
               (str_split ":" (match birth_time with
                               | Some s => s
                               | None => EmptyString
                               end))
        else Ok [12; 0]) = Ok [H; M]
    /\ timedelta_hours tz = Ok offset
    /\ - US_PER_DAY < offset < US_PER_DAY
    /\ dt = mk_datetime y m d H M 0 0 offset
    /\ (MINYEAR <= y <= MAXYEAR) /\ (1 <= m <= 12)
    /\ (1 <= d <= _days_in_month y m) /\ (0 <= H <= 23) /\ (0 <= M <= 59).
Proof.
  unfold _parse_local_datetime.
  destruct (unpack_map py_int 3 _) as [ymd | e1] eqn:E1; simpl;
    [| discriminate].
  destruct (if truthy birth_time then _ else _) as [hm | e2] eqn:E2; simpl;
    [| discriminate].
  destruct (timedelta_hours tz) as [delta | e3] eqn:E3; simpl;
    [| discriminate].
  destruct (timezone delta) as [offset | e4] eqn:E4; simpl; [| discriminate].
  intros Hnew.
  destruct (unpack_int3 _ _ E1) as (y & m & d & ->).
  assert (Hhm : exists H M, hm = [H; M]).
  { destruct (truthy birth_time).
    - apply (unpack_int2 _ _ E2).
    - injection E2 as <-. eauto. }
  destruct Hhm as (H & M & ->).
  apply timezone_inv in E4. destruct E4 as [-> Hoff].
  simpl in Hnew. apply datetime_new_inv in Hnew.
  exists y, m, d, H, M, delta. tauto.
Qed.

Lemma handler_parse_failure (swe : SwissEph) (payload : NatalRequest.t)
  (ephe_path : string) (e : exn) :
  _parse_local_datetime (NatalRequest.birth_date payload)
    (NatalRequest.birth_time payload) (NatalRequest.tz_offset_hours payload)
  = Raise e ->
  calculate_natal_chart swe payload ephe_path = (Raise e, ephe_path).
Proof. intros H. unfold calculate_natal_chart. rewrite H. reflexivity. Qed.

(** C2, as amended.  A birth date that the code does not accept (its parts
    between [-] are not three integer literals, or they are no calendar date
    of the years 1 to 9999) makes the request fail with the exception the
    parser raised, a [ValueError] or an [OverflowError]; it leaves the
    handler uncaught and is answered with status 500, not with a client
    error. *)
Theorem rejected_date_fails
  (swe : SwissEph) (payload : NatalRequest.t) (ephe_path : string) :
  date_accepted (NatalRequest.birth_date payload) = false ->
  exists e : exn,
    calculate_natal_chart swe payload ephe_path = (Raise e, ephe_path)
    /\ (e = ValueError \/ e = OverflowError)
    /\ http_status (fst (calculate_natal_chart swe payload ephe_path)) = 500
    /\ client_error
         (http_status (fst (calculate_natal_chart swe payload ephe_path)))
       = false.
Proof.
  intros Hrej.
  destruct (_parse_local_datetime (NatalRequest.birth_date payload)
              (NatalRequest.birth_time payload)
              (NatalRequest.tz_offset_hours payload)) as [dt | e] eqn:Ep.
  - exfalso. apply parse_ok_inv in Ep.
    destruct Ep as (y & m & d & H & M & off & E1 & _ & _ & _ & _ & Hy & Hm
                    & Hd & _).
    unfold date_accepted in Hrej. rewrite E1 in Hrej.
    assert (T : (MINYEAR <=? y) && (y <=? MAXYEAR) && (1 <=? m) && (m <=? 12)
                && (1 <=? d) && (d <=? _days_in_month y m) = true).
    { repeat (apply andb_true_intro; split); lia. }
    congruence.
  - exists e. rewrite (handler_parse_failure swe payload ephe_path e Ep).
    split; [reflexivity |]. split; [exact (parse_raises_kind _ _ _ _ Ep) |].
    split; reflexivity.
Qed.

Lemma rejected_date_fails_witness :
  date_accepted "2000/01/01" = false
  /\ exists e : exn,
       calculate_natal_chart swe_sample
         (with_birth_date request_sample "2000/01/01") ""
       = (Raise e, ""%string)
       /\ (e = ValueError \/ e = OverflowError).
Proof.
  assert (R : date_accepted "2000/01/01" = false) by (vm_compute; reflexivity).
  split; [exact R |].
  destruct (rejected_date_fails swe_sample
              (with_birth_date request_sample "2000/01/01") "" R)
    as (e & He & Hk & _).
  exists e. split; assumption.
Defined.

(** C2, as stated, fails: the malformed date 2000/01/01 makes the handler
    raise [ValueError], which is answered with status 500; no client error
    is produced. *)
Lemma malformed_date_is_server_error :
  calculate_natal_chart swe_sample
    (with_birth_date request_sample "2000/01/01") ""
  = (Raise ValueError, ""%string)
  /\ http_status
       (fst (calculate_natal_chart swe_sample
               (with_birth_date request_sample "2000/01/01") "")) = 500
  /\ client_error
       (http_status
          (fst (calculate_natal_chart swe_sample
                  (with_birth_date request_sample "2000/01/01") "")))
     = false.
Proof. repeat split; vm_compute; reflexivity. Qed.

(** C7, as amended.  A birth time that is a non-empty string and that the
    code does not accept (its parts between [:] are not two integer literals,
    or they are no hour and minute of a day) makes the request fail with the
    exception the parser raised, a [ValueError] or an [OverflowError], the
    same kind of failure as for a date, answered with status 500.  A birth
    time that is the empty string is treated as absent: the request gets the
    result it gets without a birth time. *)
Theorem rejected_time_fails
  (swe : SwissEph) (payload : NatalRequest.t) (ephe_path : string) :
  (forall t : string,
     NatalRequest.birth_time payload = Some t ->
     t <> EmptyString ->
     time_accepted t = false ->
     exists e : exn,
       calculate_natal_chart swe payload ephe_path = (Raise e, ephe_path)
       /\ (e = ValueError \/ e = OverflowError)
       /\ http_status (fst (calculate_natal_chart swe payload ephe_path))
          = 500)
  /\ (NatalRequest.birth_time payload = Some EmptyString ->
      calculate_natal_chart swe payload ephe_path
      = calculate_natal_chart swe (with_birth_time payload None) ephe_path).
Proof.
  split.
  - intros t Ht Hne Hrej.
    destruct (_parse_local_datetime (NatalRequest.birth_date payload)
                (NatalRequest.birth_time payload)
                (NatalRequest.tz_offset_hours payload)) as [dt | e] eqn:Ep.
    + exfalso. apply parse_ok_inv in Ep.
      destruct Ep as (y & m & d & H & M & off & _ & E2 & _ & _ & _ & _ & _
                      & _ & HH & HM).
      rewrite Ht in E2. destruct t as [| c t']; [congruence |].
      cbn [truthy] in E2.
      unfold time_accepted in Hrej. rewrite E2 in Hrej.
      assert (T : (0 <=? H) && (H <=? 23) && (0 <=? M) && (M <=? 59) = true).
      { repeat (apply andb_true_intro; split); lia. }
      congruence.
    + exists e. rewrite (handler_parse_failure swe payload ephe_path e Ep).
      split; [reflexivity |].
      split; [exact (parse_raises_kind _ _ _ _ Ep) |]. reflexivity.
  - intros Ht. unfold calculate_natal_chart.
    cbn [with_birth_time NatalRequest.birth_date NatalRequest.birth_time
         NatalRequest.tz_offset_hours NatalRequest.latitude
         NatalRequest.longitude].
    rewrite Ht, parse_empty_time. reflexivity.
Qed.

Lemma rejected_time_fails_witness :
  time_accepted "12-30" = false
  /\ (exists e : exn,
        calculate_natal_chart swe_sample
          (with_birth_time request_sample (Some "12-30"%string)) ""
        = (Raise e, ""%string)
        /\ (e = ValueError \/ e = OverflowError))
  /\ calculate_natal_chart swe_sample
       (with_birth_time request_sample (Some EmptyString)) ""
     = calculate_natal_chart swe_sample
         (with_birth_time
            (with_birth_time request_sample (Some EmptyString)) None) "".
Proof.
  assert (R : time_accepted "12-30" = false) by (vm_compute; reflexivity).
  split; [exact R |].
  split.
  - destruct (proj1 (rejected_time_fails swe_sample
                       (with_birth_time request_sample (Some "12-30"%string))
                       "")
                "12-30"%string eq_refl ltac:(discriminate) R)
      as (e & He & Hk & _).
    exists e. split; assumption.
  - apply (proj2 (rejected_time_fails swe_sample
                    (with_birth_time request_sample (Some EmptyString)) "")).
    reflexivity.
Defined.

(** C7, as stated, fails: the empty string is a birth time that is present
    and is not of the form HH:MM, yet the request succeeds, with noon
    substituted; and a malformed time such as 12-30 raises the same
    [ValueError] as a malformed date, answered with status 500. *)
Lemma empty_time_is_not_rejected :
  time_accepted "" = false
  /\ (exists resp : NatalResponse.t,
        calculate_natal_chart swe_sample
          (with_birth_time request_sample (Some EmptyString)) ""
        = (Ok resp, "."%string))
  /\ calculate_natal_chart swe_sample
       (with_birth_time request_sample (Some "12-30"%string)) ""
     = (Raise ValueError, ""%string)
  /\ calculate_natal_chart swe_sample
       (with_birth_date request_sample "2000/01/01") ""
     = (Raise ValueError, ""%string).
Proof.
  split; [vm_compute; reflexivity |].
  split.
  - destruct (calculate_natal_chart swe_sample
                (with_birth_time request_sample (Some EmptyString)) "")
      as [[resp | e] path] eqn:E; [| vm_compute in E; discriminate E].
    exists resp. vm_compute in E. congruence.
  - split; vm_compute; reflexivity.
Qed.

(** ** The proleptic Gregorian calendar of [datetime] *)

Lemma range_all_spec (P : Z -> bool) (count : nat) :
  forall lo, range_all P lo count = true ->
  forall z, lo <= z < lo + Z.of_nat count -> P z = true.
Proof.
  induction count as [| c IH]; intros lo H z Hz; [lia |].
  simpl in H. apply andb_prop in H. destruct H as [H0 H1].
  destruct (Z.eq_dec z lo) as [-> | Hne]; [exact H0 |].
  apply (IH (lo + 1) H1). lia.
Qed.

Lemma month_day_of_sound (leap : bool) (n : Z) :
  0 <= n < year_length leap ->
  month_day_ok leap n = true.
Proof.
  intros Hn. destruct leap.
  - apply (range_all_spec (month_day_ok true) 366 0); [vm_compute; reflexivity |].
    unfold year_length in Hn. lia.
  - apply (range_all_spec (month_day_ok false) 365 0); [vm_compute; reflexivity |].
    unfold year_length in Hn. lia.
Qed.

Lemma ord2ymd_eq (o : Z) :
  _ord2ymd o =
  let n := o - 1 in
  let n400 := n / _DI400Y in
  let n := n mod _DI400Y in
  let year := n400 * 400 + 1 in
  let n100 := n / _DI100Y in
  let n := n mod _DI100Y in
  let n4 := n / _DI4Y in
  let n := n mod _DI4Y in
  let n1 := n / 365 in
  let n := n mod 365 in
  let year := year + n100 * 100 + n4 * 4 + n1 in
  if (n1 =? 4) || (n100 =? 4) then (year - 1, 12, 31)
  else
    let leapyear := (n1 =? 3) && (negb (n4 =? 24) || (n100 =? 3)) in
    let '(m, d) := month_day_of leapyear n in (year, m, d).
Proof.
  unfold _ord2ymd, month_day_of. cbv zeta.
  destruct (_ || _); [reflexivity |].
  destruct (_ <? _); reflexivity.
Qed.

Lemma is_leap_spec (y : Z) :
  _is_leap y = true <-> (y mod 4 = 0 /\ (y mod 100 <> 0 \/ y mod 400 = 0)).
Proof.
  unfold _is_leap. rewrite andb_true_iff, orb_true_iff, negb_true_iff.
  rewrite !Z.eqb_eq, Z.eqb_neq. tauto.
Qed.

Lemma ord2ymd_sound (o : Z) :
  1 <= o ->
  exists y m d,
    _ord2ymd o = (y, m, d)
    /\ 1 <= y /\ 1 <= m <= 12 /\ 1 <= d <= _days_in_month y m
    /\ _ymd2ord y m d = o
    /\ (o <= 3652059 -> y <= 9999).
Proof.
  intros Ho. rewrite ord2ymd_eq. cbv zeta.
  unfold _DI400Y, _DI100Y, _DI4Y.
  remember (o - 1) as n0 eqn:En0.
  remember (n0 / 146097) as n400 eqn:E400.
  remember (n0 mod 146097) as r1 eqn:Er1.
  remember (r1 / 36524) as n100 eqn:E100.
  remember (r1 mod 36524) as r2 eqn:Er2.
  remember (r2 / 1461) as n4 eqn:E4.
  remember (r2 mod 1461) as r3 eqn:Er3.
  remember (r3 / 365) as n1 eqn:E1.
  remember (r3 mod 365) as k eqn:Ek.
  assert (F : 0 <= n400 /\ 0 <= r1 < 146097 /\ n0 = 146097 * n400 + r1
              /\ 0 <= r2 < 36524 /\ r1 = 36524 * n100 + r2 /\ 0 <= n100 <= 4
              /\ 0 <= r3 < 1461 /\ r2 = 1461 * n4 + r3 /\ 0 <= n4 <= 24
              /\ 0 <= k < 365 /\ r3 = 365 * n1 + k /\ 0 <= n1 <= 4).
  { subst n400 r1 n100 r2 n4 r3 n1 k. Z.div_mod_to_equations. lia. }
  clear E400 Er1 E100 Er2 E4 Er3 E1 Ek.
  destruct F as (F0 & F1 & F2 & F3 & F4 & F5 & F6 & F7 & F8 & F9 & F10 & F11).
  remember (n400 * 400 + 1 + n100 * 100 + n4 * 4 + n1) as y eqn:Ey.
  destruct ((n1 =? 4) || (n100 =? 4)) eqn:Elast.
  - (* the last day of a leap year *)
    exists (y - 1), 12, 31. split; [reflexivity |].
    assert (C : n1 = 4 \/ n100 = 4).
    { apply orb_true_iff in Elast. rewrite !Z.eqb_eq in Elast. exact Elast. }
    assert (L : _is_leap (y - 1) = true).
    { apply is_leap_spec. subst y. Z.div_mod_to_equations. lia. }
    assert (D : _days_in_month (y - 1) 12 = 31) by reflexivity.
    assert (B : _days_before_month (y - 1) 12 = 335).
    { unfold _days_before_month. rewrite L. reflexivity. }
    unfold _ymd2ord. rewrite D, B. unfold _days_before_year.
    repeat split; try lia; subst y; Z.div_mod_to_equations; lia.
  - (* any other day *)
    assert (C : n1 <= 3 /\ n100 <= 3).
    { apply orb_false_iff in Elast. rewrite !Z.eqb_neq in Elast. lia. }
    remember ((n1 =? 3) && (negb (n4 =? 24) || (n100 =? 3))) as leap eqn:El.
    assert (L : _is_leap y = leap).
    { subst leap. apply eq_iff_eq_true.
      rewrite is_leap_spec, andb_true_iff, orb_true_iff, negb_true_iff.
      rewrite !Z.eqb_eq, Z.eqb_neq. subst y. Z.div_mod_to_equations. lia. }
    assert (K : 0 <= k < year_length leap) by (destruct leap; simpl; lia).
    pose proof (month_day_of_sound leap k K) as S.
    unfold month_day_ok in S.
    destruct (month_day_of leap k) as [m d].
    repeat (apply andb_prop in S; destruct S as [S ?]).
    exists y, m, d. split; [reflexivity |].
    unfold _ymd2ord, _days_in_month, _days_before_month, _days_before_year.
    rewrite L.
    repeat split; try lia; subst y; Z.div_mod_to_equations; lia.
Qed.

Lemma days_in_month_le_31 (m : Z) :
  1 <= m <= 12 -> table _DAYS_IN_MONTH m <= 31.
Proof.
  intros Hm.
  apply Z.leb_le.
  apply (range_all_spec (fun i => table _DAYS_IN_MONTH i <=? 31) 12 1);
    [reflexivity | lia].
Qed.

Lemma month_day_of_complete (leap : bool) (m d : Z) :
  1 <= m <= 12 ->
  1 <= d <= (if (m =? 2) && leap then 29 else table _DAYS_IN_MONTH m) ->
  month_day_of leap
    (table _DAYS_BEFORE_MONTH m + (if (2 <? m) && leap then 1 else 0) + d - 1)
  = (m, d)
  /\ table _DAYS_BEFORE_MONTH m + (if (2 <? m) && leap then 1 else 0) + d
     <= year_length leap.
Proof.
  intros Hm Hd.
  assert (D31 : 1 <= d < 1 + Z.of_nat 31).
  { pose proof (days_in_month_le_31 m Hm).
    destruct ((m =? 2) && leap); lia. }
  assert (A : forall l, range_all (fun i => range_all (month_day_inv_ok l i) 1 31)
                1 12 = true).
  { intros [|]; vm_compute; reflexivity. }
  pose proof (range_all_spec _ 12 1 (A leap) m ltac:(lia)) as B.
  pose proof (range_all_spec _ 31 1 B d D31) as C.
  unfold month_day_inv_ok in C. cbv zeta in C.
  destruct (Z.leb_spec d (if (m =? 2) && leap then 29
                          else table _DAYS_IN_MONTH m)) as [_ | Hgt]; [| lia].
  destruct (month_day_of leap _) as [m' d'].
  apply andb_prop in C. destruct C as [C C3].
  apply andb_prop in C. destruct C as [C1 C2].
  apply Z.eqb_eq in C1, C2. apply Z.leb_le in C3.
  subst. split; [reflexivity | assumption].
Qed.

Lemma days_before_year_succ (y : Z) :
  _days_before_year (y + 1) = _days_before_year y + year_length (_is_leap y).
Proof.
  unfold _days_before_year.
  destruct (_is_leap y) eqn:L.
  - apply is_leap_spec in L. unfold year_length.
    Z.div_mod_to_equations. lia.
  - assert (N : ~ (y mod 4 = 0 /\ (y mod 100 <> 0 \/ y mod 400 = 0))).
    { rewrite <- is_leap_spec. congruence. }
    unfold year_length. Z.div_mod_to_equations. lia.
Qed.

Lemma days_before_year_mono (y y' : Z) :
  y <= y' -> _days_before_year y <= _days_before_year y'.
Proof.
  intros H. unfold _days_before_year. Z.div_mod_to_equations. lia.
Qed.

Lemma ymd2ord_bounds (y m d : Z) :
  1 <= m <= 12 -> 1 <= d <= _days_in_month y m ->
  _days_before_year y < _ymd2ord y m d <= _days_before_year (y + 1).
Proof.
  intros Hm Hd. rewrite days_before_year_succ.
  unfold _ymd2ord, _days_before_month. unfold _days_in_month in Hd.
  destruct (month_day_of_complete (_is_leap y) m d Hm Hd) as [_ Hle].
  assert (0 <= table _DAYS_BEFORE_MONTH m).
  { apply Z.leb_le.
    apply (range_all_spec (fun i => 0 <=? table _DAYS_BEFORE_MONTH i) 12 1);
      [reflexivity | lia]. }
  destruct ((2 <? m) && _is_leap y); lia.
Qed.

Lemma ymd2ord_inj (y m d y' m' d' : Z) :
  1 <= m <= 12 -> 1 <= d <= _days_in_month y m ->
  1 <= m' <= 12 -> 1 <= d' <= _days_in_month y' m' ->
  _ymd2ord y m d = _ymd2ord y' m' d' ->
  (y, m, d) = (y', m', d').
Proof.
  intros Hm Hd Hm' Hd' E.
  pose proof (ymd2ord_bounds y m d Hm Hd) as B.
  pose proof (ymd2ord_bounds y' m' d' Hm' Hd') as B'.
  assert (Y : y = y').
  { destruct (Z.lt_trichotomy y y') as [Hlt | [Heq | Hgt]]; [| exact Heq |].
    - pose proof (days_before_year_mono (y + 1) y' ltac:(lia)). lia.
    - pose proof (days_before_year_mono (y' + 1) y ltac:(lia)). lia. }
  subst y'.
  unfold _days_in_month in Hd, Hd'.
  destruct (month_day_of_complete (_is_leap y) m d Hm Hd) as [M _].
  destruct (month_day_of_complete (_is_leap y) m' d' Hm' Hd') as [M' _].
  unfold _ymd2ord, _days_before_month in E.
  replace (table _DAYS_BEFORE_MONTH m'
           + (if (2 <? m') && _is_leap y then 1 else 0) + d' - 1)
    with (table _DAYS_BEFORE_MONTH m
          + (if (2 <? m) && _is_leap y then 1 else 0) + d - 1) in M' by lia.
  congruence.
Qed.

Lemma ord2ymd_ymd2ord (y m d : Z) :
  1 <= y -> 1 <= m <= 12 -> 1 <= d <= _days_in_month y m ->
  _ord2ymd (_ymd2ord y m d) = (y, m, d).
Proof.
  intros Hy Hm Hd.
  assert (O : 1 <= _ymd2ord y m d).
  { pose proof (ymd2ord_bounds y m d Hm Hd).
    pose proof (days_before_year_mono 1 y Hy).
    change (_days_before_year 1) with 0 in *. lia. }
  destruct (ord2ymd_sound _ O) as (y' & m' & d' & E & _ & Hm' & Hd' & Eo & _).
  rewrite E. apply (ymd2ord_inj y' m' d' y m d); assumption.
Qed.

(** ** Arithmetic on datetimes *)

Lemma valid_datetime_iff (dt : datetime) :
  valid_datetime dt = true <->
  (MINYEAR <= year dt <= MAXYEAR) /\ (1 <= month dt <= 12)
  /\ (1 <= day dt <= _days_in_month (year dt) (month dt))
  /\ (0 <= hour dt <= 23) /\ (0 <= minute dt <= 59)
  /\ (0 <= second dt <= 59) /\ (0 <= microsecond dt < US_PER_SECOND).
Proof.
  unfold valid_datetime.
  rewrite !andb_true_iff, !Z.leb_le, Z.ltb_lt. tauto.
Qed.

Lemma ymd2ord_range (y m d : Z) :
  MINYEAR <= y <= MAXYEAR -> 1 <= m <= 12 -> 1 <= d <= _days_in_month y m ->
  1 <= _ymd2ord y m d <= _MAXORDINAL.
Proof.
  unfold MINYEAR, MAXYEAR, _MAXORDINAL. intros Hy Hm Hd.
  pose proof (ymd2ord_bounds y m d Hm Hd) as B.
  pose proof (days_before_year_mono 1 y ltac:(lia)) as L.
  pose proof (days_before_year_mono (y + 1) 10000 ltac:(lia)) as U.
  change (_days_before_year 1) with 0 in L.
  change (_days_before_year 10000) with 3652059 in U. lia.
Qed.

Lemma div_mod_unique_pos (b q r : Z) :
  0 <= r < b -> (b * q + r) / b = q /\ (b * q + r) mod b = r.
Proof.
  intros H. split.
  - symmetry. apply (Z.div_unique_pos _ b q r); [exact H | reflexivity].
  - symmetry. apply (Z.mod_unique_pos _ b q r); [exact H | reflexivity].
Qed.

(** The fields of a time of day are found again from its microseconds. *)
Lemma time_of_day_digits (ord H M S us : Z) :
  0 <= H <= 23 -> 0 <= M <= 59 -> 0 <= S <= 59 -> 0 <= us < 1000000 ->
  let total := ((ord * 24 + H) * 60 + M) * 60 * 1000000 + S * 1000000 + us in
  total / 86400000000 = ord
  /\ (total mod 86400000000) / 1000000 / 3600 = H
  /\ ((total mod 86400000000) / 1000000) mod 3600 / 60 = M
  /\ ((total mod 86400000000) / 1000000) mod 3600 mod 60 = S
  /\ (total mod 86400000000) mod 1000000 = us.
Proof.
  intros HH HM HS Hus total.
  assert (E : total = 86400000000 * ord
                      + (1000000 * (3600 * H + (60 * M + S)) + us))
    by (subst total; lia).
  destruct (div_mod_unique_pos 86400000000 ord
              (1000000 * (3600 * H + (60 * M + S)) + us) ltac:(lia))
    as [D1 R1].
  rewrite <- E in D1, R1. rewrite D1, R1.
  destruct (div_mod_unique_pos 1000000 (3600 * H + (60 * M + S)) us Hus)
    as [D2 R2].
  rewrite D2, R2.
  destruct (div_mod_unique_pos 3600 H (60 * M + S) ltac:(lia)) as [D3 R3].
  rewrite D3, R3.
  destruct (div_mod_unique_pos 60 M S ltac:(lia)) as [D4 R4].
  rewrite D4, R4. repeat split.
Qed.

(** Conversely the microseconds are the sum of the fields. *)
Lemma time_of_day_sum (total : Z) :
  let rem := total mod 86400000000 in
  let secs := rem / 1000000 in
  ((total / 86400000000 * 24 + secs / 3600) * 60 + secs mod 3600 / 60)
    * 60 * 1000000
  + secs mod 3600 mod 60 * 1000000 + rem mod 1000000 = total
  /\ 0 <= secs / 3600 <= 23 /\ 0 <= secs mod 3600 / 60 <= 59
  /\ 0 <= secs mod 3600 mod 60 <= 59 /\ 0 <= rem mod 1000000 < 1000000.
Proof.
  cbv zeta.
  pose proof (Z.div_mod total 86400000000 ltac:(lia)) as E1.
  pose proof (Z.mod_pos_bound total 86400000000 ltac:(lia)) as B1.
  remember (total / 86400000000) as days.
  remember (total mod 86400000000) as rem.
  pose proof (Z.div_mod rem 1000000 ltac:(lia)) as E2.
  pose proof (Z.mod_pos_bound rem 1000000 ltac:(lia)) as B2.
  remember (rem / 1000000) as secs.
  remember (rem mod 1000000) as us.
  pose proof (Z.div_mod secs 3600 ltac:(lia)) as E3.
  pose proof (Z.mod_pos_bound secs 3600 ltac:(lia)) as B3.
  remember (secs / 3600) as H.
  remember (secs mod 3600) as r3.
  pose proof (Z.div_mod r3 60 ltac:(lia)) as E4.
  pose proof (Z.mod_pos_bound r3 60 ltac:(lia)) as B4.
  remember (r3 / 60) as M.
  remember (r3 mod 60) as S.
  repeat split; lia.
Qed.

(** Adding nothing to a datetime gives it back. *)
Lemma datetime_add_zero (dt : datetime) :
  valid_datetime dt = true -> datetime_add dt 0 = Ok dt.
Proof.
  intros V. apply valid_datetime_iff in V.
  destruct dt as [y m d H M S us tz].
  cbn [year month day hour minute second microsecond utcoffset] in V.
  destruct V as (Hy & Hm & Hd & HH & HM & HS & Hus).
  unfold US_PER_SECOND in Hus.
  unfold datetime_add, wall_us.
  cbn [year month day hour minute second microsecond utcoffset].
  unfold US_PER_DAY, US_PER_HOUR, US_PER_SECOND.
  change (24 * (3600 * 1000000)) with 86400000000.
  rewrite Z.add_0_r.
  destruct (time_of_day_digits (_ymd2ord y m d) H M S us HH HM HS Hus)
    as (E1 & E2 & E3 & E4 & E5).
  rewrite E1, E2, E3, E4, E5.
  pose proof (ymd2ord_range y m d Hy Hm Hd) as R.
  unfold _MAXORDINAL in *.
  destruct (Z.ltb_spec 0 (_ymd2ord y m d)); [| lia].
  destruct (Z.leb_spec (_ymd2ord y m d) 3652059); [| lia].
  cbn [andb].
  rewrite ord2ymd_ymd2ord by (unfold MINYEAR in Hy; lia || assumption).
  reflexivity.
Qed.

(** The sum of a datetime and a timedelta, when there is one, is a datetime
    that reads the shifted wall clock. *)
Lemma datetime_add_sound (dt dt' : datetime) (delta : Z) :
  datetime_add dt delta = Ok dt' ->
  valid_datetime dt' = true
  /\ wall_us dt' = wall_us dt + delta
  /\ utcoffset dt' = utcoffset dt.
Proof.
  unfold datetime_add.
  set (total := wall_us dt + delta).
  destruct (Z.ltb_spec 0 (total / US_PER_DAY)) as [Hlo |]; [| discriminate].
  destruct (Z.leb_spec (total / US_PER_DAY) _MAXORDINAL) as [Hhi |];
    [| discriminate].
  cbn [andb].
  destruct (ord2ymd_sound (total / US_PER_DAY) ltac:(lia))
    as (y & m & d & E & Hy & Hm & Hd & Eo & Hmax).
  rewrite E. intros H. injection H as <-.
  unfold US_PER_DAY, US_PER_HOUR, US_PER_SECOND in *.
  change (24 * (3600 * 1000000)) with 86400000000 in *.
  destruct (time_of_day_sum total) as (Es & HH & HM & HS & Hus).
  split; [| split; [| reflexivity]].
  - apply valid_datetime_iff.
    cbn [year month day hour minute second microsecond utcoffset].
    unfold MINYEAR, MAXYEAR, US_PER_SECOND, _MAXORDINAL in *.
    specialize (Hmax Hhi). repeat split; lia || assumption.
  - unfold wall_us.
    cbn [year month day hour minute second microsecond utcoffset].
    rewrite Eo. unfold US_PER_SECOND. exact Es.
Qed.

Lemma datetime_add_defined (dt : datetime) (delta : Z) :
  1 <= (wall_us dt + delta) / US_PER_DAY <= _MAXORDINAL ->
  exists dt', datetime_add dt delta = Ok dt'.
Proof.
  intros [Hlo Hhi]. unfold datetime_add.
  destruct (Z.ltb_spec 0 ((wall_us dt + delta) / US_PER_DAY)); [| lia].
  destruct (Z.leb_spec ((wall_us dt + delta) / US_PER_DAY) _MAXORDINAL);
    [| lia].
  cbn [andb]. destruct (_ord2ymd _) as [[y m] d]. eauto.
Qed.

(** Conversion to UTC: it succeeds exactly when the UTC instant falls on a
    day of the years 1 to 9999, and then reads that instant. *)
Lemma astimezone_utc_sound (dt u : datetime) :
  valid_datetime dt = true ->
  astimezone_utc dt = Ok u ->
  valid_datetime u = true /\ wall_us u = utc_instant dt /\ utcoffset u = 0.
Proof.
  intros V. unfold astimezone_utc, utc_instant.
  destruct (Z.eqb_spec (utcoffset dt) 0) as [E0 | Hne].
  - intros H. injection H as <-. rewrite E0. repeat split; [assumption | lia].
  - destruct (datetime_add dt (- utcoffset dt)) as [s | e] eqn:Es;
      cbn [bind]; [| discriminate].
    apply datetime_add_sound in Es. destruct Es as (Vs & Ws & _).
    intros Hu. apply datetime_add_sound in Hu.
    destruct Hu as (Vu & Wu & Ou).
    split; [assumption |]. split; [| exact Ou].
    rewrite Wu. unfold replace_tzinfo, wall_us in *.
    cbn [year month day hour minute second microsecond utcoffset] in *. lia.
Qed.

Lemma astimezone_utc_defined (dt : datetime) :
  valid_datetime dt = true ->
  1 <= utc_instant dt / US_PER_DAY <= _MAXORDINAL ->
  exists u, astimezone_utc dt = Ok u.
Proof.
  intros V R. unfold astimezone_utc, utc_instant in *.
  destruct (Z.eqb_spec (utcoffset dt) 0) as [E0 | Hne]; [eauto |].
  destruct (datetime_add_defined dt (- utcoffset dt)) as (s & Es).
  { replace (wall_us dt + - utcoffset dt) with (wall_us dt - utcoffset dt)
      by lia. exact R. }
  rewrite Es. cbn [bind].
  apply datetime_add_sound in Es. destruct Es as (Vs & _ & _).
  assert (Vr : valid_datetime (replace_tzinfo s 0) = true) by exact Vs.
  rewrite (datetime_add_zero _ Vr). eauto.
Qed.

(** ** The Julian day *)

Lemma Qfloor_scale (a : Z) (b : positive) (z : Z) :
  Qfloor ((a # b) * inject_Z z) = (a * z) / Z.pos b.
Proof.
  unfold Qfloor, Qmult, inject_Z; simpl. rewrite Pos.mul_1_r. reflexivity.
Qed.

Lemma month_term (m : Z) :
  1 <= m <= 12 ->
  (306001 * ((if m <=? 2 then m + 12 else m) + 1)) / 10000
  = table _DAYS_BEFORE_MONTH m + (if m <=? 2 then 428 else 63).
Proof.
  intros Hm. apply Z.eqb_eq.
  apply (range_all_spec month_term_ok 12 1); [reflexivity | lia].
Qed.

Lemma julian_day_standard_integer (y m d : Z) :
  1 <= y -> 1 <= m <= 12 ->
  let Y := if m <=? 2 then y - 1 else y in
  let M := if m <=? 2 then m + 12 else m in
  (36525 * (Y + 4716)) / 100 + (306001 * (M + 1)) / 10000 + d
  + (2 - Y / 100 + Y / 100 / 4)
  = _ymd2ord y m d + 1722949.
Proof.
  intros Hy Hm. cbv zeta. rewrite (month_term m Hm).
  unfold _ymd2ord, _days_before_month, _days_before_year.
  rewrite Z.div_div by lia. change (100 * 4) with 400.
  destruct (Z.leb_spec m 2) as [Hle | Hgt].
  - destruct (Z.ltb_spec 2 m); [lia |]. simpl andb. cbv iota.
    Z.div_mod_to_equations. lia.
  - destruct (Z.ltb_spec 2 m); [| lia]. simpl andb.
    destruct (_is_leap y) eqn:L.
    + apply is_leap_spec in L. Z.div_mod_to_equations. lia.
    + assert (N : ~ (y mod 4 = 0 /\ (y mod 100 <> 0 \/ y mod 400 = 0))).
      { rewrite <- is_leap_spec. congruence. }
      Z.div_mod_to_equations. lia.
Qed.

Lemma julian_day_standard_ordinal (y m d : Z) (h : Q) :
  1 <= y -> 1 <= m <= 12 ->
  (julian_day_standard y m d h
   == (17214245 # 10) + inject_Z (_ymd2ord y m d) + h / 24)%Q.
Proof.
  intros Hy Hm. unfold julian_day_standard. cbv zeta.
  rewrite !Qfloor_scale.
  change (Z.pos 100) with 100. change (Z.pos 10000) with 10000.
  rewrite (julian_day_standard_integer y m d Hy Hm).
  rewrite inject_Z_plus. field.
Qed.

Lemma day_count_of_fields (ord H M S : Z) :
  ((17214245 # 10) + inject_Z ord
   + (inject_Z H + inject_Z M / 60 + inject_Z S / 3600) / 24
   == julian_day_of_instant
        (((ord * 24 + H) * 60 + M) * 60 * 1000000 + S * 1000000))%Q.
Proof.
  unfold julian_day_of_instant, US_PER_DAY, US_PER_HOUR, US_PER_SECOND.
  change (24 * (3600 * 1000000)) with 86400000000.
  repeat (rewrite inject_Z_plus || rewrite inject_Z_mult).
  change (inject_Z 24) with 24%Q. change (inject_Z 60) with 60%Q.
  change (inject_Z 1000000) with 1000000%Q.
  change (inject_Z 86400000000) with 86400000000%Q. field.
Qed.

Lemma julian_day_of_instant_le (a b : Z) :
  a <= b -> (julian_day_of_instant a <= julian_day_of_instant b)%Q.
Proof.
  intros H. unfold julian_day_of_instant.
  apply Qplus_le_r. unfold Qdiv. apply Qmult_le_compat_r.
  - rewrite <- Zle_Qle. exact H.
  - discriminate.
Qed.

Lemma julian_day_of_instant_second (a us : Z) :
  0 <= us < US_PER_SECOND ->
  (julian_day_of_instant a - (1 # 86400) < julian_day_of_instant (a - us))%Q.
Proof.
  intros H.
  assert (E : (julian_day_of_instant a - (1 # 86400)
               == julian_day_of_instant (a - us)
                  + inject_Z (us - 1000000) / inject_Z US_PER_DAY)%Q).
  { unfold julian_day_of_instant, US_PER_DAY, US_PER_HOUR, US_PER_SECOND.
    change (24 * (3600 * 1000000)) with 86400000000.
    unfold Z.sub. rewrite !inject_Z_plus, !inject_Z_opp.
    change (inject_Z 1000000) with 1000000%Q.
    change (inject_Z 86400000000) with 86400000000%Q. field. }
  rewrite E.
  rewrite <- (Qplus_0_r (julian_day_of_instant (a - us))) at 2.
  apply Qplus_lt_r.
  apply Qlt_shift_div_r; [reflexivity |].
  rewrite Qmult_0_l. change 0%Q with (inject_Z 0).
  rewrite <- Zlt_Qlt. unfold US_PER_SECOND in H. lia.
Qed.

(** C9.  For every datetime whose UTC instant falls on a day of the years 1
    to 9999, and an ephemeris whose [julday] is the standard Julian-day
    algorithm of the Gregorian calendar, [_julday_utc] returns that algorithm
    applied to the UTC date with the day fraction hour + minute/60 +
    second/3600; this is the continuous day count of the instant cut to whole
    seconds, so it is less than one second below the exact day count, and
    equal to it when the instant has no microseconds. *)
Theorem julday_utc_is_julian_day (swe : SwissEph) (dt : datetime) :
  (forall (y m d : Z) (h : Q),
     MINYEAR <= y <= MAXYEAR -> 1 <= m <= 12 ->
     1 <= d <= _days_in_month y m ->
     (julday swe y m d h GREG_CAL == julian_day_standard y m d h)%Q) ->
  valid_datetime dt = true ->
  1 <= utc_instant dt / US_PER_DAY <= _MAXORDINAL ->
  exists (u : datetime) (jd : Q),
    astimezone_utc dt = Ok u
    /\ _julday_utc swe dt = Ok jd
    /\ (jd == julian_day_standard (year u) (month u) (day u)
              (inject_Z (hour u) + inject_Z (minute u) / 60
               + inject_Z (second u) / 3600))%Q
    /\ (jd == julian_day_of_instant (utc_instant dt - microsecond u))%Q
    /\ (julian_day_of_instant (utc_instant dt) - (1 # 86400) < jd)%Q
    /\ (jd <= julian_day_of_instant (utc_instant dt))%Q
    /\ (microsecond u = 0 ->
        (jd == julian_day_of_instant (utc_instant dt))%Q).
Proof.
  intros Hswe V R.
  destruct (astimezone_utc_defined dt V R) as (u & Eu).
  destruct (astimezone_utc_sound dt u V Eu) as (Vu & Wu & _).
  apply valid_datetime_iff in Vu.
  destruct Vu as (Hy & Hm & Hd & HH & HM & HS & Hus).
  exists u. eexists. split; [exact Eu |].
  split; [unfold _julday_utc; rewrite Eu; reflexivity |].
  assert (J : (julday swe (year u) (month u) (day u)
                 (inject_Z (hour u) + inject_Z (minute u) / 60
                  + inject_Z (second u) / 3600) GREG_CAL
               == julian_day_of_instant (utc_instant dt - microsecond u))%Q).
  { rewrite (Hswe _ _ _ _ Hy Hm Hd).
    rewrite julian_day_standard_ordinal by (unfold MINYEAR in Hy; lia).
    rewrite day_count_of_fields.
    rewrite <- Wu. unfold wall_us, US_PER_SECOND.
    match goal with
    | |- (julian_day_of_instant ?a == julian_day_of_instant ?b)%Q =>
        replace b with a by lia
    end.
    reflexivity. }
  split; [apply Hswe; assumption |].
  split; [exact J |].
  split; [rewrite J; apply julian_day_of_instant_second; exact Hus |].
  split; [rewrite J; apply julian_day_of_instant_le; lia |].
  intros E0. rewrite J, E0, Z.sub_0_r. reflexivity.
Qed.

Lemma julday_utc_is_julian_day_witness :
  exists jd : Q,
    _julday_utc swe_sample (mk_datetime 2000 1 1 2 30 0 0 (3 * US_PER_HOUR))
    = Ok jd
    /\ (jd == julian_day_of_instant
               (utc_instant
                  (mk_datetime 2000 1 1 2 30 0 0 (3 * US_PER_HOUR))))%Q
    /\ (jd == 117674135 # 48)%Q.
Proof.
  destruct (julday_utc_is_julian_day swe_sample
              (mk_datetime 2000 1 1 2 30 0 0 (3 * US_PER_HOUR)))
    as (u & jd & Eu & Ej & _ & _ & _ & _ & Hex).
  - intros y m d h _ _ _. reflexivity.
  - reflexivity.
  - vm_compute. split; discriminate.
  - exists jd. split; [exact Ej |].
    assert (U : u = mk_datetime 1999 12 31 23 30 0 0 0).
    { vm_compute in Eu. congruence. }
    split; [apply Hex; rewrite U; reflexivity |].
    vm_compute in Ej. injection Ej as <-. reflexivity.
Defined.

(** ** The timezone offset *)

Lemma round_half_even_inject (z : Z) : round_half_even (inject_Z z) = z.
Proof.
  unfold round_half_even. rewrite Qfloor_Z.
  assert (L : Qcompare (inject_Z z - inject_Z z) (1 # 2) = Lt).
  { apply -> Qlt_alt.
    unfold Qlt, Qminus, Qplus, Qopp, inject_Z; simpl. lia. }
  rewrite L. reflexivity.
Qed.

Lemma timedelta_whole_hours (h delta : Z) :
  timedelta_hours (inject_Z h) = Ok delta -> delta = h * US_PER_HOUR.
Proof.
  unfold timedelta_hours.
  rewrite (Qtrunc_int (inject_Z h) h (Qeq_refl _)).
  assert (F : float64 (inject_Z US_PER_HOUR * (inject_Z h - inject_Z h))
              = 0%Q).
  { apply float64_zero. ring. }
  rewrite F.
  assert (E : round_half_even (inject_Z (h * US_PER_HOUR) + 0)
              = h * US_PER_HOUR).
  { apply round_half_even_int. apply Qplus_0_r. }
  rewrite E.
  destruct (_ || _); [discriminate |]. congruence.
Qed.

(** A parsed datetime is a datetime object on a whole minute, and its offset
    is the timedelta of the given hours, inside one day. *)
Lemma parse_ok_valid (birth_date : string) (birth_time : option string)
  (tz : Q) (dt : datetime) :
  _parse_local_datetime birth_date birth_time tz = Ok dt ->
  valid_datetime dt = true
  /\ second dt = 0 /\ microsecond dt = 0
  /\ timedelta_hours tz = Ok (utcoffset dt)
  /\ - US_PER_DAY < utcoffset dt < US_PER_DAY.
Proof.
  intros H. apply parse_ok_inv in H.
  destruct H as (y & m & d & HH & MM & off & _ & _ & Etd & Hoff & -> & Hy
                 & Hm & Hd & Hh & Hmi).
  cbn [second microsecond utcoffset].
  split; [| tauto].
  apply valid_datetime_iff.
  cbn [year month day hour minute second microsecond].
  unfold US_PER_SECOND. repeat split; lia || assumption.
Qed.

(** C5, as amended.  When the request at offset [h] hours, an integer, and
    the request at offset 0 are both accepted, and the clock time of the
    second is the clock time of the first minus [h] hours, then [h] lies
    strictly between -24 and 24, both normalize to the same astronomical
    time, which is defined, and the handler gives the same result for both
    at equal coordinates. *)
Theorem tz_offset_shift
  (swe : SwissEph) (date date' : string) (time time' : option string)
  (h : Z) (loc loc' shifted : datetime) :
  _parse_local_datetime date time (inject_Z h) = Ok loc ->
  _parse_local_datetime date' time' 0 = Ok loc' ->
  datetime_add loc (- (h * US_PER_HOUR)) = Ok shifted ->
  loc' = replace_tzinfo shifted 0 ->
  -24 < h < 24
  /\ normalize swe date time (inject_Z h) = normalize swe date' time' 0
  /\ (exists jd : Q, normalize swe date' time' 0 = Ok jd)
  /\ forall (name name' : option string) (unknown unknown' : bool)
            (lat lon : Q) (ephe_path : string),
       calculate_natal_chart swe
         (NatalRequest.mk name date time unknown lat lon (inject_Z h))
         ephe_path
       = calculate_natal_chart swe
           (NatalRequest.mk name' date' time' unknown' lat lon 0) ephe_path.
Proof.
  intros Hp Hp' Hs Hl.
  destruct (parse_ok_valid _ _ _ _ Hp) as (V & _ & _ & Etd & Hoff).
  destruct (parse_ok_valid _ _ _ _ Hp') as (V' & _ & _ & Etd' & _).
  apply timedelta_whole_hours in Etd.
  assert (O' : utcoffset loc' = 0) by (rewrite Hl; reflexivity).
  assert (A' : astimezone_utc loc' = Ok loc').
  { unfold astimezone_utc. rewrite O'. reflexivity. }
  assert (A : astimezone_utc loc = Ok loc').
  { unfold astimezone_utc.
    destruct (Z.eqb_spec (utcoffset loc) 0) as [E0 | Hne].
    - rewrite <- Etd, E0 in Hs. change (- 0) with 0 in Hs.
      rewrite (datetime_add_zero loc V) in Hs. injection Hs as <-.
      rewrite Hl. destruct loc as [y m d H M S us tz].
      cbn [utcoffset] in E0. subst tz. reflexivity.
    - rewrite Etd, Hs. cbn [bind]. rewrite <- Hl.
      apply datetime_add_zero. exact V'. }
  assert (J : _julday_utc swe loc = _julday_utc swe loc').
  { unfold _julday_utc. rewrite A, A'. reflexivity. }
  split.
  { rewrite Etd in Hoff. unfold US_PER_DAY, US_PER_HOUR, US_PER_SECOND in Hoff.
    lia. }
  split; [unfold normalize; rewrite Hp, Hp'; exact J |].
  split.
  { unfold normalize, _julday_utc. rewrite Hp'. cbn [bind]. rewrite A'.
    cbn [bind]. eauto. }
  intros name name' unknown unknown' lat lon ephe_path.
  unfold calculate_natal_chart.
  cbn [NatalRequest.birth_date NatalRequest.birth_time
       NatalRequest.tz_offset_hours NatalRequest.latitude
       NatalRequest.longitude].
  rewrite Hp, Hp', J. reflexivity.
Qed.

Lemma tz_offset_shift_witness :
  normalize swe_sample "2000-01-01" (Some "02:30"%string) (inject_Z 3)
  = normalize swe_sample "1999-12-31" (Some "23:30"%string) 0
  /\ exists jd : Q,
       normalize swe_sample "1999-12-31" (Some "23:30"%string) 0 = Ok jd.
Proof.
  destruct (tz_offset_shift swe_sample "2000-01-01" "1999-12-31"
              (Some "02:30"%string) (Some "23:30"%string) 3
              (mk_datetime 2000 1 1 2 30 0 0 (3 * US_PER_HOUR))
              (mk_datetime 1999 12 31 23 30 0 0 0)
              (mk_datetime 1999 12 31 23 30 0 0 (3 * US_PER_HOUR))
              eq_refl eq_refl eq_refl eq_refl) as (_ & E & D & _).
  split; [exact E | exact D].
Defined.

(** C5, as stated, fails at the shift of 24 hours: the clock time 12:00 of
    2000-01-01 shifted back by 24 hours is 12:00 of 1999-12-31, which
    normalizes at offset 0, but the offset of 24 hours is refused by
    [timezone] with a [ValueError]. *)
Lemma tz_offset_24_is_refused :
  datetime_add (mk_datetime 2000 1 1 12 0 0 0 0) (- (24 * US_PER_HOUR))
  = Ok (mk_datetime 1999 12 31 12 0 0 0 0)
  /\ normalize swe_sample "2000-01-01" (Some "12:00"%string) (inject_Z 24)
     = Raise ValueError
  /\ (exists jd : Q,
        normalize swe_sample "1999-12-31" (Some "12:00"%string) 0 = Ok jd)
  /\ normalize swe_sample "2000-01-01" (Some "12:00"%string) (inject_Z 24)
     <> normalize swe_sample "1999-12-31" (Some "12:00"%string) 0.
Proof.
  split; [reflexivity |]. split; [reflexivity |].
  split; [eexists; reflexivity |]. discriminate.
Qed.

(** ** Further properties of the sign mapper *)

Lemma sign_index_band (lon : Q) (n k : Z) :
  (inject_Z (- 2 ^ 53) < lon)%Q -> (lon < inject_Z (2 ^ 53))%Q ->
  0 <= k < 12 ->
  (inject_Z (30 * (12 * n + k)) <= lon)%Q ->
  (lon < inject_Z (30 * (12 * n + k + 1)))%Q ->
  sign_index lon = k.
Proof.
  intros Rlo Rhi Hk Hlo Hhi.
  rewrite (sign_index_exact lon Rlo Rhi). clear Rlo Rhi.
  destruct lon as [a b].
  rewrite Qfloor_div30.
  unfold Qle in Hlo. unfold Qlt in Hhi.
  cbn [Qnum Qden inject_Z] in Hlo, Hhi.
  assert (E : a / (Z.pos b * 30) = 12 * n + k).
  { symmetry.
    apply Z.div_unique_pos with (r := a - Z.pos b * 30 * (12 * n + k));
      lia. }
  rewrite E. rewrite Z.add_comm, Z.mul_comm, Z.mod_add by lia.
  apply Z.mod_small. exact Hk.
Qed.

(** X1.  Each sign is a band of 30 degrees: a longitude below 2^53 in
    magnitude that lies from 30k up to, not including, 30(k+1) degrees,
    whatever number [n] of full turns is added to it, gets the [k]-th name
    of the table. *)
Theorem sign_band (lon : Q) (n k : Z) :
  (inject_Z (- 2 ^ 53) < lon)%Q -> (lon < inject_Z (2 ^ 53))%Q ->
  0 <= k < 12 ->
  (inject_Z (30 * (12 * n + k)) <= lon)%Q ->
  (lon < inject_Z (30 * (12 * n + k + 1)))%Q ->
  sign_index lon = k
  /\ _sign_from_longitude lon = py_getitem SIGNS_RU k
  /\ exists s, _sign_from_longitude lon = Ok s
               /\ nth_error SIGNS_RU (Z.to_nat k) = Some s.
Proof.
  intros Rlo Rhi Hk Hlo Hhi.
  pose proof (sign_index_band lon n k Rlo Rhi Hk Hlo Hhi) as E.
  unfold _sign_from_longitude. rewrite E. clear E Hlo Hhi Rlo Rhi.
  split; [reflexivity |]. split; [reflexivity |].
  assert (C : k = 0 \/ k = 1 \/ k = 2 \/ k = 3 \/ k = 4 \/ k = 5 \/ k = 6
              \/ k = 7 \/ k = 8 \/ k = 9 \/ k = 10 \/ k = 11) by lia.
  repeat (destruct C as [-> | C]); try subst k;
    (eexists; split; reflexivity).
Qed.

Lemma sign_band_witness :
  _sign_from_longitude (-(7996311 # 10000)) = Ok "Козерог"%string.
Proof.
  destruct (sign_band (-(7996311 # 10000)) (-3) 9) as (_ & _ & s & Es & En).
  - reflexivity.
  - reflexivity.
  - lia.
  - unfold Qle; simpl; lia.
  - unfold Qlt; simpl; lia.
  - rewrite Es. f_equal. vm_compute in En. congruence.
Defined.

Lemma signs_distinct (i j : Z) :
  0 <= i < 12 -> 0 <= j < 12 ->
  py_getitem SIGNS_RU i = py_getitem SIGNS_RU j -> i = j.
Proof.
  intros Hi Hj.
  assert (Ci : i = 0 \/ i = 1 \/ i = 2 \/ i = 3 \/ i = 4 \/ i = 5 \/ i = 6
               \/ i = 7 \/ i = 8 \/ i = 9 \/ i = 10 \/ i = 11) by lia.
  assert (Cj : j = 0 \/ j = 1 \/ j = 2 \/ j = 3 \/ j = 4 \/ j = 5 \/ j = 6
               \/ j = 7 \/ j = 8 \/ j = 9 \/ j = 10 \/ j = 11) by lia.
  clear Hi Hj.
  repeat (destruct Ci as [-> | Ci]); try subst i;
    repeat (destruct Cj as [-> | Cj]); try subst j;
    intros E; try reflexivity; vm_compute in E; discriminate E.
Qed.

(** X2.  The name of the sign tells the band: two longitudes get the same name
    exactly when they have the same index in the table. *)
Theorem sign_name_determines_band (lon1 lon2 : Q) :
  _sign_from_longitude lon1 = _sign_from_longitude lon2
  <-> sign_index lon1 = sign_index lon2.
Proof.
  unfold _sign_from_longitude. split.
  - apply signs_distinct; apply sign_index_range.
  - intros ->. reflexivity.
Qed.

(** ** Further properties of the handler *)

(** The handler spelled out once the time is normalized. *)
Lemma handler_after_normalize (swe : SwissEph) (payload : NatalRequest.t)
  (ephe_path : string) (jd_ut : Q) :
  normalize swe (NatalRequest.birth_date payload)
    (NatalRequest.birth_time payload) (NatalRequest.tz_offset_hours payload)
  = Ok jd_ut ->
  calculate_natal_chart swe payload ephe_path
  = (sun <- calc_ut swe "." jd_ut SUN ;;
     sun_lon <- unpack_head sun ;;
     moon <- calc_ut swe "." jd_ut MOON ;;
     moon_lon <- unpack_head moon ;;
     '(_, ascmc) <- houses swe "." jd_ut (NatalRequest.latitude payload)
                      (NatalRequest.longitude payload) "P" ;;
     asc_deg <- py_getitem ascmc 0 ;;
     sun_pos_sign <- _sign_from_longitude sun_lon ;;
     moon_pos_sign <- _sign_from_longitude moon_lon ;;
     sun_sign <- _sign_from_longitude sun_lon ;;
     moon_sign <- _sign_from_longitude moon_lon ;;
     ascendant_sign <- _sign_from_longitude asc_deg ;;
     Ok (NatalResponse.mk sun_sign moon_sign ascendant_sign asc_deg
           [ PlanetPosition.mk "Солнце" sun_pos_sign sun_lon;
             PlanetPosition.mk "Луна" moon_pos_sign moon_lon ]),
     "."%string).
Proof.
  unfold normalize, calculate_natal_chart.
  destruct (_parse_local_datetime _ _ _) as [dt | e]; [| discriminate].
  cbn [bind]. intros ->. reflexivity.
Qed.

Lemma handler_normalize_failure (swe : SwissEph) (payload : NatalRequest.t)
  (ephe_path : string) (e : exn) :
  normalize swe (NatalRequest.birth_date payload)
    (NatalRequest.birth_time payload) (NatalRequest.tz_offset_hours payload)
  = Raise e ->
  calculate_natal_chart swe payload ephe_path = (Raise e, ephe_path).
Proof.
  unfold normalize, calculate_natal_chart.
  destruct (_parse_local_datetime _ _ _) as [dt | e']; cbn [bind].
  - intros ->. reflexivity.
  - intros H. injection H as ->. reflexivity.
Qed.

(** X3.  The handler keeps no state between requests.  Its result does not
    depend on the ephemeris path in force before; when the time is
    normalized the path is ["."] afterwards, and when normalization raises
    the handler raises the same and leaves the path as it was; a second run
    of the same request from the state the first run left gives the same
    result and the same state. *)
Theorem handler_state
  (swe : SwissEph) (payload : NatalRequest.t) (path path' : string) :
  fst (calculate_natal_chart swe payload path)
  = fst (calculate_natal_chart swe payload path')
  /\ (forall jd_ut : Q,
        normalize swe (NatalRequest.birth_date payload)
          (NatalRequest.birth_time payload)
          (NatalRequest.tz_offset_hours payload) = Ok jd_ut ->
        snd (calculate_natal_chart swe payload path) = "."%string)
  /\ (forall e : exn,
        normalize swe (NatalRequest.birth_date payload)
          (NatalRequest.birth_time payload)
          (NatalRequest.tz_offset_hours payload) = Raise e ->
        calculate_natal_chart swe payload path = (Raise e, path))
  /\ calculate_natal_chart swe payload
       (snd (calculate_natal_chart swe payload path))
     = calculate_natal_chart swe payload path.
Proof.
  split; [| split; [| split]].
  - destruct (normalize swe (NatalRequest.birth_date payload)
                (NatalRequest.birth_time payload)
                (NatalRequest.tz_offset_hours payload)) as [jd | e] eqn:En.
    + rewrite !(handler_after_normalize swe payload _ jd En). reflexivity.
    + rewrite !(handler_normalize_failure swe payload _ e En). reflexivity.
  - intros jd En.
    rewrite (handler_after_normalize swe payload path jd En). reflexivity.
  - intros e En. apply handler_normalize_failure. exact En.
  - destruct (normalize swe (NatalRequest.birth_date payload)
                (NatalRequest.birth_time payload)
                (NatalRequest.tz_offset_hours payload)) as [jd | e] eqn:En.
    + rewrite !(handler_after_normalize swe payload _ jd En). reflexivity.
    + rewrite !(handler_normalize_failure swe payload _ e En). reflexivity.
Qed.

Lemma handler_state_witness :
  snd (calculate_natal_chart swe_sample request_sample "/usr/share/ephe")
  = "."%string
  /\ calculate_natal_chart swe_sample
       (with_birth_date request_sample "2000/01/01") "/usr/share/ephe"
     = (Raise ValueError, "/usr/share/ephe"%string).
Proof.
  split.
  - apply (proj1 (proj2 (handler_state swe_sample request_sample
                           "/usr/share/ephe" ""))
             (127088092800000 # 51840000)).
    vm_compute. reflexivity.
  - apply (proj1 (proj2 (proj2 (handler_state swe_sample
                                  (with_birth_date request_sample
                                     "2000/01/01")
                                  "/usr/share/ephe" "")))).
    vm_compute. reflexivity.
Defined.

(** X4.  The handler reads five fields of the request only: two requests with the
    same birth date, birth time, latitude, longitude and offset get the same
    result, whatever their names and [time_unknown] flags. *)
Theorem handler_reads_five_fields
  (swe : SwissEph) (p1 p2 : NatalRequest.t) (ephe_path : string) :
  NatalRequest.birth_date p1 = NatalRequest.birth_date p2 ->
  NatalRequest.birth_time p1 = NatalRequest.birth_time p2 ->
  NatalRequest.latitude p1 = NatalRequest.latitude p2 ->
  NatalRequest.longitude p1 = NatalRequest.longitude p2 ->
  NatalRequest.tz_offset_hours p1 = NatalRequest.tz_offset_hours p2 ->
  calculate_natal_chart swe p1 ephe_path
  = calculate_natal_chart swe p2 ephe_path.
Proof.
  intros Hd Ht Hlat Hlon Htz. unfold calculate_natal_chart.
  rewrite Hd, Ht, Hlat, Hlon, Htz. reflexivity.
Qed.

Lemma handler_reads_five_fields_witness :
  NatalRequest.name request_sample
  <> NatalRequest.name
       (with_name (with_time_unknown request_sample true) (Some "Kate"%string))
  /\ calculate_natal_chart swe_sample request_sample ""
     = calculate_natal_chart swe_sample
         (with_name (with_time_unknown request_sample true)
            (Some "Kate"%string)) "".
Proof.
  split; [discriminate |].
  apply (handler_reads_five_fields swe_sample request_sample
           (with_name (with_time_unknown request_sample true)
              (Some "Kate"%string)) ""); reflexivity.
Defined.

(** X5.  A failure of the ephemeris is the failure of the request, with no partial
    chart: once the time is normalized, the error raised for the Sun, or for
    the Moon after the Sun was computed, or for the houses after both were
    computed, is the result of the handler. *)
Theorem ephemeris_error_propagates
  (swe : SwissEph) (payload : NatalRequest.t) (ephe_path : string)
  (jd_ut : Q) (e : exn) :
  normalize swe (NatalRequest.birth_date payload)
    (NatalRequest.birth_time payload) (NatalRequest.tz_offset_hours payload)
  = Ok jd_ut ->
  (calc_ut swe "." jd_ut SUN = Raise e ->
   calculate_natal_chart swe payload ephe_path = (Raise e, "."%string))
  /\ (forall sun_lon sun_rest,
        calc_ut swe "." jd_ut SUN = Ok (sun_lon :: sun_rest) ->
        calc_ut swe "." jd_ut MOON = Raise e ->
        calculate_natal_chart swe payload ephe_path = (Raise e, "."%string))
  /\ (forall sun_lon sun_rest moon_lon moon_rest,
        calc_ut swe "." jd_ut SUN = Ok (sun_lon :: sun_rest) ->
        calc_ut swe "." jd_ut MOON = Ok (moon_lon :: moon_rest) ->
        houses swe "." jd_ut (NatalRequest.latitude payload)
          (NatalRequest.longitude payload) "P" = Raise e ->
        calculate_natal_chart swe payload ephe_path = (Raise e, "."%string)).
Proof.
  intros En. rewrite (handler_after_normalize swe payload ephe_path jd_ut En).
  split; [| split].
  - intros ->. reflexivity.
  - intros sun_lon sun_rest -> ->. reflexivity.
  - intros sun_lon sun_rest moon_lon moon_rest -> -> ->. reflexivity.
Qed.

Lemma ephemeris_error_propagates_witness :
  calculate_natal_chart swe_polar (with_latitude request_sample (899 # 10)) ""
  = (Raise SweError, "."%string).
Proof.
  destruct (ephemeris_error_propagates swe_polar
              (with_latitude request_sample (899 # 10)) ""
              (127088092800000 # 51840000) SweError eq_refl)
    as (_ & _ & H).
  apply (H (2803689 # 10000) [0; 1]%Q (2233237 # 10000) [0; 1]%Q);
    reflexivity.
Defined.

(** X6.  With an ephemeris that answers as [SwissEph] types it, [calc_ut]
    with a flat tuple of numbers whose first item is the longitude, the
    handler succeeds whenever the time is normalized and the tuples for the
    Sun, for the Moon and for the angles are not empty: the sign lookup never
    fails.  The response is then the one built from the three longitudes,
    and its signs are names of the table. *)
Theorem handler_succeeds
  (swe : SwissEph) (payload : NatalRequest.t) (ephe_path : string)
  (jd_ut sun_lon moon_lon asc_deg : Q)
  (sun_rest moon_rest cusps asc_rest : list Q) :
  normalize swe (NatalRequest.birth_date payload)
    (NatalRequest.birth_time payload) (NatalRequest.tz_offset_hours payload)
  = Ok jd_ut ->
  calc_ut swe "." jd_ut SUN = Ok (sun_lon :: sun_rest) ->
  calc_ut swe "." jd_ut MOON = Ok (moon_lon :: moon_rest) ->
  houses swe "." jd_ut (NatalRequest.latitude payload)
    (NatalRequest.longitude payload) "P" = Ok (cusps, asc_deg :: asc_rest) ->
  exists s_sun s_moon s_asc : string,
    _sign_from_longitude sun_lon = Ok s_sun
    /\ _sign_from_longitude moon_lon = Ok s_moon
    /\ _sign_from_longitude asc_deg = Ok s_asc
    /\ In s_sun SIGNS_RU /\ In s_moon SIGNS_RU /\ In s_asc SIGNS_RU
    /\ calculate_natal_chart swe payload ephe_path
       = (Ok (NatalResponse.mk s_sun s_moon s_asc asc_deg
                [ PlanetPosition.mk "Солнце" s_sun sun_lon;
                  PlanetPosition.mk "Луна" s_moon moon_lon ]),
          "."%string).
Proof.
  intros En Hs Hm Hh.
  rewrite (handler_after_normalize swe payload ephe_path jd_ut En).
  rewrite Hs, Hm, Hh.
  destruct (sign_total sun_lon) as (s1 & E1 & I1).
  destruct (sign_total moon_lon) as (s2 & E2 & I2).
  destruct (sign_total asc_deg) as (s3 & E3 & I3).
  exists s1, s2, s3.
  repeat (split; [assumption |]).
  cbn [bind unpack_head].
  change (py_getitem (asc_deg :: asc_rest) 0) with (Ok asc_deg).
  cbn [bind]. rewrite E1, E2, E3. reflexivity.
Qed.

Lemma handler_succeeds_witness :
  calculate_natal_chart swe_sample request_sample ""
  = (Ok (NatalResponse.mk "Козерог" "Скорпион" "Телец" ((3762 # 100) + 360)
           [ PlanetPosition.mk "Солнце" "Козерог" (2803689 # 10000);
             PlanetPosition.mk "Луна" "Скорпион" (2233237 # 10000) ]),
     "."%string).
Proof.
  destruct (handler_succeeds swe_sample request_sample ""
              (127088092800000 # 51840000) (2803689 # 10000)
              (2233237 # 10000) ((3762 # 100) + 360) [0; 1]%Q [0; 1]%Q
              [] [0]%Q eq_refl eq_refl eq_refl eq_refl)
    as (s1 & s2 & s3 & E1 & E2 & E3 & _ & _ & _ & H).
  rewrite H. vm_compute in E1, E2. 
  assert (E3' : _sign_from_longitude ((3762 # 100) + 360) = Ok "Телец"%string)
    by reflexivity.
  congruence.
Defined.

(** ** Further properties of the conversion to the Julian day *)

Lemma wall_us_digits (dt : datetime) :
  valid_datetime dt = true ->
  wall_us dt / US_PER_DAY = _ymd2ord (year dt) (month dt) (day dt)
  /\ (wall_us dt mod US_PER_DAY) / 1000000 / 3600 = hour dt
  /\ ((wall_us dt mod US_PER_DAY) / 1000000) mod 3600 / 60 = minute dt
  /\ ((wall_us dt mod US_PER_DAY) / 1000000) mod 3600 mod 60 = second dt
  /\ (wall_us dt mod US_PER_DAY) mod 1000000 = microsecond dt.
Proof.
  intros V. apply valid_datetime_iff in V.
  destruct V as (_ & _ & _ & HH & HM & HS & Hus).
  unfold wall_us, US_PER_DAY, US_PER_HOUR, US_PER_SECOND in *.
  change (24 * (3600 * 1000000)) with 86400000000.
  apply time_of_day_digits; assumption.
Qed.

Lemma wall_us_day_in_range (dt : datetime) :
  valid_datetime dt = true ->
  1 <= wall_us dt / US_PER_DAY <= _MAXORDINAL.
Proof.
  intros V. destruct (wall_us_digits dt V) as (E & _). rewrite E.
  apply valid_datetime_iff in V.
  destruct V as (Hy & Hm & Hd & _). apply ymd2ord_range; assumption.
Qed.

(** A datetime is determined by its wall clock and its offset. *)
Lemma datetime_unique (u1 u2 : datetime) :
  valid_datetime u1 = true -> valid_datetime u2 = true ->
  utcoffset u1 = utcoffset u2 -> wall_us u1 = wall_us u2 -> u1 = u2.
Proof.
  intros V1 V2 Ho W.
  destruct (wall_us_digits u1 V1) as (D1 & H1 & M1 & S1 & U1).
  destruct (wall_us_digits u2 V2) as (D2 & H2 & M2 & S2 & U2).
  rewrite W in D1, H1, M1, S1, U1.
  apply valid_datetime_iff in V1. apply valid_datetime_iff in V2.
  destruct V1 as (_ & Hm1 & Hd1 & _). destruct V2 as (_ & Hm2 & Hd2 & _).
  assert (E : (year u1, month u1, day u1) = (year u2, month u2, day u2)).
  { apply ymd2ord_inj; try assumption. congruence. }
  destruct u1, u2.
  cbn [year month day hour minute second microsecond utcoffset] in *.
  injection E as -> -> ->. congruence.
Qed.

Lemma datetime_add_raises (dt : datetime) (delta : Z) (e : exn) :
  datetime_add dt delta = Raise e ->
  e = OverflowError
  /\ ~ (1 <= (wall_us dt + delta) / US_PER_DAY <= _MAXORDINAL).
Proof.
  unfold datetime_add.
  destruct (Z.ltb_spec 0 ((wall_us dt + delta) / US_PER_DAY));
    destruct (Z.leb_spec ((wall_us dt + delta) / US_PER_DAY) _MAXORDINAL);
    cbn [andb].
  - destruct (_ord2ymd _) as [[y m] d]. discriminate.
  - intros E. injection E as <-. split; [reflexivity | lia].
  - intros E. injection E as <-. split; [reflexivity | lia].
  - intros E. injection E as <-. split; [reflexivity | lia].
Qed.

Lemma astimezone_utc_raises (dt : datetime) (e : exn) :
  valid_datetime dt = true ->
  astimezone_utc dt = Raise e ->
  e = OverflowError /\ utcoffset dt <> 0 /\ ~ utc_day_in_range dt.
Proof.
  intros V. unfold astimezone_utc, utc_day_in_range, utc_instant.
  destruct (Z.eqb_spec (utcoffset dt) 0) as [E0 | Hne]; [discriminate |].
  destruct (datetime_add dt (- utcoffset dt)) as [s | e'] eqn:Es; cbn [bind].
  - apply datetime_add_sound in Es. destruct Es as (Vs & _ & _).
    assert (Vr : valid_datetime (replace_tzinfo s 0) = true) by exact Vs.
    rewrite (datetime_add_zero _ Vr). discriminate.
  - intros E. injection E as <-. apply datetime_add_raises in Es.
    destruct Es as (-> & Hr). split; [reflexivity |]. split; [exact Hne |].
    replace (wall_us dt - utcoffset dt) with (wall_us dt + - utcoffset dt)
      by lia. exact Hr.
Qed.

Lemma astimezone_utc_in_range (dt u : datetime) :
  valid_datetime dt = true ->
  astimezone_utc dt = Ok u -> utc_day_in_range dt.
Proof.
  intros V E. destruct (astimezone_utc_sound dt u V E) as (Vu & Wu & _).
  unfold utc_day_in_range. rewrite <- Wu. apply wall_us_day_in_range, Vu.
Qed.

(** X7.  [_julday_utc] depends on the UTC instant only: two datetimes that denote
    the same instant at any two offsets, whole hours or not, give the same
    result. *)
Theorem julday_utc_same_instant (swe : SwissEph) (dt1 dt2 : datetime) :
  valid_datetime dt1 = true -> valid_datetime dt2 = true ->
  utc_instant dt1 = utc_instant dt2 ->
  _julday_utc swe dt1 = _julday_utc swe dt2.
Proof.
  intros V1 V2 I. unfold _julday_utc.
  destruct (astimezone_utc dt1) as [u1 | e1] eqn:E1;
    destruct (astimezone_utc dt2) as [u2 | e2] eqn:E2; cbn [bind].
  - destruct (astimezone_utc_sound dt1 u1 V1 E1) as (Vu1 & W1 & O1).
    destruct (astimezone_utc_sound dt2 u2 V2 E2) as (Vu2 & W2 & O2).
    assert (U : u1 = u2).
    { apply datetime_unique; try assumption; congruence. }
    rewrite U. reflexivity.
  - exfalso. apply (astimezone_utc_in_range dt1 u1 V1) in E1.
    apply (astimezone_utc_raises dt2 e2 V2) in E2.
    destruct E2 as (_ & _ & N). apply N.
    unfold utc_day_in_range in *. rewrite <- I. exact E1.
  - exfalso. apply (astimezone_utc_in_range dt2 u2 V2) in E2.
    apply (astimezone_utc_raises dt1 e1 V1) in E1.
    destruct E1 as (_ & _ & N). apply N.
    unfold utc_day_in_range in *. rewrite I. exact E2.
  - apply (astimezone_utc_raises dt1 e1 V1) in E1.
    apply (astimezone_utc_raises dt2 e2 V2) in E2.
    destruct E1 as (-> & _). destruct E2 as (-> & _). reflexivity.
Qed.

Lemma julday_utc_same_instant_witness :
  _julday_utc swe_sample
    (mk_datetime 2000 1 1 5 0 0 0 (5 * US_PER_HOUR + 1800 * US_PER_SECOND))
  = _julday_utc swe_sample
      (mk_datetime 1999 12 31 20 15 0 0 (- (3 * US_PER_HOUR)
                                         - 900 * US_PER_SECOND)).
Proof.
  apply (julday_utc_same_instant swe_sample
           (mk_datetime 2000 1 1 5 0 0 0
              (5 * US_PER_HOUR + 1800 * US_PER_SECOND))
           (mk_datetime 1999 12 31 20 15 0 0
              (- (3 * US_PER_HOUR) - 900 * US_PER_SECOND)));
    reflexivity.
Defined.

(** X8.  [_julday_utc] fails only at the edge of the calendar: on a datetime it
    raises exactly when the UTC instant falls on no day of the years 1 to
    9999, which needs a non-zero offset, and what it raises is
    [OverflowError]. *)
Theorem julday_utc_fails_iff (swe : SwissEph) (dt : datetime) (e : exn) :
  valid_datetime dt = true ->
  (_julday_utc swe dt = Raise e
   <-> e = OverflowError /\ utcoffset dt <> 0 /\ ~ utc_day_in_range dt).
Proof.
  intros V. unfold _julday_utc. split.
  - destruct (astimezone_utc dt) as [u | e'] eqn:E; cbn [bind];
      [discriminate |].
    intros H. injection H as <-. apply (astimezone_utc_raises dt e' V E).
  - intros (-> & _ & N).
    destruct (astimezone_utc dt) as [u | e'] eqn:E; cbn [bind].
    + exfalso. apply N. apply (astimezone_utc_in_range dt u V E).
    + apply (astimezone_utc_raises dt e' V) in E. destruct E as (-> & _).
      reflexivity.
Qed.

Lemma julday_utc_fails_iff_witness :
  _julday_utc swe_sample (mk_datetime 1 1 1 0 0 0 0 (3 * US_PER_HOUR))
  = Raise OverflowError
  /\ calculate_natal_chart swe_sample
       (NatalRequest.mk None "0001-01-01" (Some "00:00"%string) false
          (5575 # 100) (3762 # 100) 3) ""
     = (Raise OverflowError, ""%string).
Proof.
  split; [| reflexivity].
  apply (julday_utc_fails_iff swe_sample
           (mk_datetime 1 1 1 0 0 0 0 (3 * US_PER_HOUR)) OverflowError
           eq_refl).
  split; [reflexivity |]. split; [discriminate |].
  unfold utc_day_in_range. vm_compute. intros [H _]. apply H. reflexivity.
Defined.

Lemma julian_day_of_instant_lt (a b : Z) :
  a < b -> (julian_day_of_instant a < julian_day_of_instant b)%Q.
Proof.
  intros H. unfold julian_day_of_instant.
  apply Qplus_lt_r. unfold Qdiv. apply Qmult_lt_compat_r.
  - reflexivity.
  - rewrite <- Zlt_Qlt. exact H.
Qed.

(** Under the standard Julian day, what [_julday_utc] returns is the day
    count of the whole second [s] in which the UTC instant lies. *)
Lemma julday_utc_value (swe : SwissEph) (dt : datetime) (jd : Q) :
  (forall (y m d : Z) (h : Q),
     MINYEAR <= y <= MAXYEAR -> 1 <= m <= 12 ->
     1 <= d <= _days_in_month y m ->
     (julday swe y m d h GREG_CAL == julian_day_standard y m d h)%Q) ->
  valid_datetime dt = true ->
  _julday_utc swe dt = Ok jd ->
  exists s : Z,
    (jd == julian_day_of_instant (s * US_PER_SECOND))%Q
    /\ s * US_PER_SECOND <= utc_instant dt < (s + 1) * US_PER_SECOND.
Proof.
  intros Hswe V. unfold _julday_utc.
  destruct (astimezone_utc dt) as [u | e] eqn:Eu; cbn [bind];
    [| discriminate].
  intros H. injection H as <-.
  destruct (astimezone_utc_sound dt u V Eu) as (Vu & Wu & _).
  apply valid_datetime_iff in Vu.
  destruct Vu as (Hy & Hm & Hd & HH & HM & HS & Hus).
  exists (((_ymd2ord (year u) (month u) (day u) * 24 + hour u) * 60
           + minute u) * 60 + second u).
  split.
  - rewrite (Hswe _ _ _ _ Hy Hm Hd).
    rewrite julian_day_standard_ordinal by (unfold MINYEAR in Hy; lia).
    rewrite day_count_of_fields. unfold US_PER_SECOND.
    match goal with
    | |- (julian_day_of_instant ?a == julian_day_of_instant ?b)%Q =>
        replace b with a by lia
    end.
    reflexivity.
  - rewrite <- Wu. unfold wall_us, US_PER_SECOND in *. lia.
Qed.

(** X9.  Later instants have later Julian days: under the standard Julian day,
    [_julday_utc] is monotone in the UTC instant, and strictly so for
    instants at least one second apart. *)
Theorem julday_utc_monotone
  (swe : SwissEph) (dt1 dt2 : datetime) (jd1 jd2 : Q) :
  (forall (y m d : Z) (h : Q),
     MINYEAR <= y <= MAXYEAR -> 1 <= m <= 12 ->
     1 <= d <= _days_in_month y m ->
     (julday swe y m d h GREG_CAL == julian_day_standard y m d h)%Q) ->
  valid_datetime dt1 = true -> valid_datetime dt2 = true ->
  _julday_utc swe dt1 = Ok jd1 -> _julday_utc swe dt2 = Ok jd2 ->
  utc_instant dt1 <= utc_instant dt2 ->
  (jd1 <= jd2)%Q
  /\ (utc_instant dt1 + US_PER_SECOND <= utc_instant dt2 -> (jd1 < jd2)%Q).
Proof.
  intros Hswe V1 V2 E1 E2 I.
  destruct (julday_utc_value swe dt1 jd1 Hswe V1 E1) as (s1 & J1 & B1).
  destruct (julday_utc_value swe dt2 jd2 Hswe V2 E2) as (s2 & J2 & B2).
  unfold US_PER_SECOND in *. split.
  - rewrite J1, J2. apply julian_day_of_instant_le. lia.
  - intros Hs. rewrite J1, J2. apply julian_day_of_instant_lt. lia.
Qed.

Lemma julday_utc_monotone_witness :
  exists jd1 jd2 : Q,
    _julday_utc swe_sample (mk_datetime 2000 1 1 12 0 0 0 (3 * US_PER_HOUR))
    = Ok jd1
    /\ _julday_utc swe_sample (mk_datetime 2000 1 1 12 0 0 0 0) = Ok jd2
    /\ (jd1 < jd2)%Q.
Proof.
  destruct (_julday_utc swe_sample
              (mk_datetime 2000 1 1 12 0 0 0 (3 * US_PER_HOUR)))
    as [jd1 | e1] eqn:E1; [| vm_compute in E1; discriminate E1].
  destruct (_julday_utc swe_sample (mk_datetime 2000 1 1 12 0 0 0 0))
    as [jd2 | e2] eqn:E2; [| vm_compute in E2; discriminate E2].
  exists jd1, jd2. split; [reflexivity |]. split; [reflexivity |].
  assert (Hswe : forall (y m d : Z) (h : Q),
             MINYEAR <= y <= MAXYEAR -> 1 <= m <= 12 ->
             1 <= d <= _days_in_month y m ->
             (julday swe_sample y m d h GREG_CAL
              == julian_day_standard y m d h)%Q).
  { intros y m d h _ _ _. reflexivity. }
  assert (V1 : valid_datetime
                 (mk_datetime 2000 1 1 12 0 0 0 (3 * US_PER_HOUR)) = true)
    by (vm_compute; reflexivity).
  assert (V2 : valid_datetime (mk_datetime 2000 1 1 12 0 0 0 0) = true)
    by (vm_compute; reflexivity).
  assert (I : utc_instant (mk_datetime 2000 1 1 12 0 0 0 (3 * US_PER_HOUR))
              <= utc_instant (mk_datetime 2000 1 1 12 0 0 0 0))
    by (vm_compute; discriminate).
  apply (proj2 (julday_utc_monotone swe_sample _ _ jd1 jd2 Hswe V1 V2 E1 E2
                  I)).
  vm_compute. discriminate.
Defined.

(** ** Further properties of the time normalizer *)

Lemma datetime_new_ok (y m d H M tz : Z) :
  MINYEAR <= y <= MAXYEAR -> 1 <= m <= 12 -> 1 <= d <= _days_in_month y m ->
  0 <= H <= 23 -> 0 <= M <= 59 ->
  datetime_new y m d H M tz = Ok (mk_datetime y m d H M 0 0 tz).
Proof.
  intros Hy Hm Hd HH HM. unfold datetime_new.
  assert (D : _days_in_month y m <= 31).
  { unfold _days_in_month. pose proof (days_in_month_le_31 m Hm).
    destruct ((m =? 2) && _is_leap y); lia. }
  unfold MINYEAR, MAXYEAR in *.
  assert (C : c_int y && c_int m && c_int d && c_int H && c_int M = true).
  { unfold c_int. change (2 ^ 31) with 2147483648.
    repeat (apply andb_true_intro; split); lia. }
  rewrite C. cbn [negb].
  destruct (Z.leb_spec 1 y); [| lia]. destruct (Z.leb_spec y 9999); [| lia].
  destruct (Z.leb_spec 1 m); [| lia]. destruct (Z.leb_spec m 12); [| lia].
  destruct (Z.leb_spec 1 d); [| lia].
  destruct (Z.leb_spec d (_days_in_month y m)); [| lia].
  destruct (Z.leb_spec 0 H); [| lia]. destruct (Z.leb_spec H 23); [| lia].
  destruct (Z.leb_spec 0 M); [| lia]. destruct (Z.leb_spec M 59); [| lia].
  reflexivity.
Qed.

Lemma date_accepted_inv (birth_date : string) :
  date_accepted birth_date = true ->
  exists y m d,
    unpack_map py_int 3 (str_split "-" birth_date) = Ok [y; m; d]
    /\ (MINYEAR <= y <= MAXYEAR) /\ (1 <= m <= 12)
    /\ (1 <= d <= _days_in_month y m).
Proof.
  unfold date_accepted.
  destruct (unpack_map py_int 3 _) as [[| y [| m [| d [| ? ?]]]] | e];
    try discriminate.
  intros H. exists y, m, d. split; [reflexivity |].
  repeat (apply andb_prop in H; destruct H as [H ?]). lia.
Qed.

Lemma time_accepted_inv (birth_time : string) :
  time_accepted birth_time = true ->
  exists H M,
    unpack_map py_int 2 (str_split ":" birth_time) = Ok [H; M]
    /\ (0 <= H <= 23) /\ (0 <= M <= 59).
Proof.
  unfold time_accepted.
  destruct (unpack_map py_int 2 _) as [[| H [| M [| ? ?]]] | e];
    try discriminate.
  intros A. exists H, M. split; [reflexivity |].
  repeat (apply andb_prop in A; destruct A as [A ?]). lia.
Qed.

(** X10.  What [_parse_local_datetime] accepts: it returns a datetime exactly when
    the date is three integer literals between [-] that form a calendar date
    of the years 1 to 9999, the time, unless absent or empty, is two integer
    literals between [:] that form an hour and a minute, and the offset,
    rounded to microseconds, lies strictly between -24 h and 24 h. *)
Theorem parse_accepts_iff
  (birth_date : string) (birth_time : option string) (tz : Q) :
  (exists dt, _parse_local_datetime birth_date birth_time tz = Ok dt)
  <-> date_accepted birth_date = true
      /\ (truthy birth_time = true
          -> time_accepted (time_text birth_time) = true)
      /\ exists offset,
           timedelta_hours tz = Ok offset
           /\ - US_PER_DAY < offset < US_PER_DAY.
Proof.
  split.
  - intros (dt & H). apply parse_ok_inv in H.
    destruct H as (y & m & d & HH & MM & off & E1 & E2 & Etd & Hoff & _ & Hy
                   & Hm & Hd & Hh & Hmi).
    split; [| split].
    + unfold date_accepted. rewrite E1.
      repeat (apply andb_true_intro; split); lia.
    + intros T. rewrite T in E2. unfold time_accepted, time_text.
      rewrite E2. repeat (apply andb_true_intro; split); lia.
    + exists off. split; assumption.
  - intros (Hd & Ht & off & Etd & Hoff).
    destruct (date_accepted_inv _ Hd) as (y & m & d & E1 & Hy & Hm & Hdd).
    assert (T : exists H M,
               (if truthy birth_time
                then unpack_map py_int 2 (str_split ":" (time_text birth_time))
                else Ok [12; 0]) = Ok [H; M]
               /\ (0 <= H <= 23) /\ (0 <= M <= 59)).
    { destruct (truthy birth_time).
      - apply time_accepted_inv. apply Ht. reflexivity.
      - exists 12, 0. split; [reflexivity | lia]. }
    destruct T as (H & M & E2 & HH & HM).
    exists (mk_datetime y m d H M 0 0 off).
    unfold _parse_local_datetime. fold (time_text birth_time).
    rewrite E1. cbn [bind]. rewrite E2. cbn [bind]. rewrite Etd. cbn [bind].
    unfold timezone.
    destruct (Z.ltb_spec (- US_PER_DAY) off); [| lia].
    destruct (Z.ltb_spec off US_PER_DAY); [| lia].
    cbn [andb bind nth]. apply datetime_new_ok; assumption.
Qed.

Lemma parse_accepts_iff_witness :
  (exists dt,
     _parse_local_datetime "2000-1-1" (Some " 7:05"%string) (-(19 # 2))
     = Ok dt)
  /\ (exists dt,
        _parse_local_datetime "2000-01-01" (Some "１２:００"%string) 0
        = Ok dt)
  /\ ~ (exists dt,
          _parse_local_datetime "2000-02-30" (Some "12:00"%string) 0 = Ok dt).
Proof.
  split; [| split].
  - apply (proj2 (parse_accepts_iff "2000-1-1" (Some " 7:05"%string)
                    (-(19 # 2)))).
    split; [vm_compute; reflexivity |].
    split; [intros _; vm_compute; reflexivity |].
    exists (-34200000000).
    split; [vm_compute; reflexivity |]. vm_compute. split; reflexivity.
  - apply (proj2 (parse_accepts_iff "2000-01-01" (Some "１２:００"%string)
                    0)).
    split; [vm_compute; reflexivity |].
    split; [intros _; vm_compute; reflexivity |].
    exists 0.
    split; [vm_compute; reflexivity |]. vm_compute. split; reflexivity.
  - intros H.
    apply (proj1 (parse_accepts_iff "2000-02-30" (Some "12:00"%string) 0))
      in H.
    destruct H as (H & _). vm_compute in H. discriminate H.
Defined.

(** C10.  An empty birth time is treated like an absent one, not rejected:
    for every date and offset the normalizer and the whole handler give the
    same result for [""] as for [None]; and for a date and an offset that
    the code accepts, the parser returns, for [""], the datetime of that
    date at 12:00 with that offset. *)
Theorem empty_time_is_absent (swe : SwissEph) :
  (forall (birth_date : string) (tz : Q),
     normalize swe birth_date (Some EmptyString) tz
     = normalize swe birth_date None tz)
  /\ (forall (payload : NatalRequest.t) (ephe_path : string),
        calculate_natal_chart swe
          (with_birth_time payload (Some EmptyString)) ephe_path
        = calculate_natal_chart swe (with_birth_time payload None) ephe_path)
  /\ forall (birth_date : string) (tz : Q) (y m d offset : Z),
       unpack_map py_int 3 (str_split "-" birth_date) = Ok [y; m; d] ->
       MINYEAR <= y <= MAXYEAR -> 1 <= m <= 12 ->
       1 <= d <= _days_in_month y m ->
       timedelta_hours tz = Ok offset ->
       - US_PER_DAY < offset < US_PER_DAY ->
       _parse_local_datetime birth_date (Some EmptyString) tz
       = Ok (mk_datetime y m d 12 0 0 0 offset)
       /\ _parse_local_datetime birth_date None tz
          = Ok (mk_datetime y m d 12 0 0 0 offset).
Proof.
  split; [| split].
  - intros d tz. unfold normalize. rewrite parse_empty_time. reflexivity.
  - intros payload ephe_path. unfold calculate_natal_chart.
    cbn [with_birth_time NatalRequest.birth_date NatalRequest.birth_time
         NatalRequest.tz_offset_hours NatalRequest.latitude
         NatalRequest.longitude].
    rewrite parse_empty_time. reflexivity.
  - intros birth_date tz y m d offset E1 Hy Hm Hd Etd Hoff.
    rewrite parse_empty_time.
    assert (P : _parse_local_datetime birth_date None tz
                = Ok (mk_datetime y m d 12 0 0 0 offset)).
    { unfold _parse_local_datetime. rewrite E1. cbn [bind truthy].
      rewrite Etd. cbn [bind]. unfold timezone.
      destruct (Z.ltb_spec (- US_PER_DAY) offset); [| lia].
      destruct (Z.ltb_spec offset US_PER_DAY); [| lia].
      cbn [andb bind nth]. apply datetime_new_ok; try assumption; lia. }
    split; exact P.
Qed.

Lemma empty_time_is_absent_witness :
  _parse_local_datetime "2000-01-01" (Some EmptyString) (11 # 2)
  = Ok (mk_datetime 2000 1 1 12 0 0 0 19800000000).
Proof.
  apply (proj2 (proj2 (empty_time_is_absent swe_sample))
           "2000-01-01"%string (11 # 2) 2000 1 1 19800000000).
  - vm_compute. reflexivity.
  - vm_compute. split; discriminate.
  - lia.
  - vm_compute. split; discriminate.
  - vm_compute. reflexivity.
  - vm_compute. split; reflexivity.
Defined.

(** X11.  For an offset of a whole number of seconds the normalizer is exact:
    under the standard Julian day, an accepted request whose UTC instant
    falls on a day of the years 1 to 9999 normalizes to the day count of
    that instant, the local clock time minus the offset. *)
Theorem normalize_exact
  (swe : SwissEph) (birth_date : string) (birth_time : option string)
  (tz : Q) (loc : datetime) :
  (forall (y m d : Z) (h : Q),
     MINYEAR <= y <= MAXYEAR -> 1 <= m <= 12 ->
     1 <= d <= _days_in_month y m ->
     (julday swe y m d h GREG_CAL == julian_day_standard y m d h)%Q) ->
  _parse_local_datetime birth_date birth_time tz = Ok loc ->
  utcoffset loc mod US_PER_SECOND = 0 ->
  utc_day_in_range loc ->
  exists jd : Q,
    normalize swe birth_date birth_time tz = Ok jd
    /\ (jd == julian_day_of_instant (utc_instant loc))%Q.
Proof.
  intros Hswe Hp Hsec Hr.
  destruct (parse_ok_valid _ _ _ _ Hp) as (V & S0 & U0 & _ & _).
  destruct (astimezone_utc_defined loc V Hr) as (u & Eu).
  exists (julday swe (year u) (month u) (day u)
            (inject_Z (hour u) + inject_Z (minute u) / 60
             + inject_Z (second u) / 3600) GREG_CAL).
  assert (Ej : _julday_utc swe loc
               = Ok (julday swe (year u) (month u) (day u)
                       (inject_Z (hour u) + inject_Z (minute u) / 60
                        + inject_Z (second u) / 3600) GREG_CAL)).
  { unfold _julday_utc. rewrite Eu. reflexivity. }
  split; [unfold normalize; rewrite Hp; exact Ej |].
  destruct (julday_utc_value swe loc _ Hswe V Ej) as (s & J & B).
  rewrite J.
  assert (E : s * US_PER_SECOND = utc_instant loc).
  { unfold utc_instant, wall_us in *. rewrite S0, U0 in *.
    unfold US_PER_SECOND in *. Z.div_mod_to_equations. lia. }
  rewrite E. reflexivity.
Qed.

Lemma normalize_exact_witness :
  exists jd : Q,
    normalize swe_sample "2000-01-01" (Some "12:00"%string) (11 # 2) = Ok jd
    /\ (jd == 2451545 - (55 # 240))%Q.
Proof.
  destruct (normalize_exact swe_sample "2000-01-01" (Some "12:00"%string)
              (11 # 2)
              (mk_datetime 2000 1 1 12 0 0 0 (19800 * US_PER_SECOND)))
    as (jd & En & Ej).
  - intros y m d h _ _ _. reflexivity.
  - reflexivity.
  - reflexivity.
  - unfold utc_day_in_range. vm_compute. split; discriminate.
  - exists jd. split; [exact En |]. rewrite Ej. reflexivity.
Defined.
